(** * Visual-relation weak-supervision notebook: labeling functions,
      dependency selection and the label-model sweep

    Embedding of [visual_relation_full_validation_analysis_ValTestFlip.ipynb].
    Python integers are [Z], the true-division quotient and the sweep's real
    parameters are [Q], bounding boxes are Python lists indexed by the
    constants [YMIN .. XMAX], and an exception is the [Err] case of
    [result]. *)

From Stdlib Require Import ZArith QArith Qabs String.
From stdpp Require Import base list strings.
From stdpp Require Import gmap.

Local Open Scope string_scope.
Local Open Scope Z_scope.

(** ** Exceptions and the error monad *)

(** The Python exceptions the notebook's cells can raise themselves, and the
    error kinds the design names for the estimator and the label model. *)
Inductive exn : Type :=
  | IndexError
  | ZeroDivisionError
  | ValueError
  | UnboundLocalError
  | InvalidInput
  | ModelNotFittedError
  | ShapeMismatch
  | FitDivergence.

Inductive result (A : Type) : Type :=
  | Ok (a : A)
  | Err (e : exn).
Arguments Ok {A} a.
Arguments Err {A} e.

#[global] Instance result_ret : MRet result := fun A a => Ok a.

#[global] Instance result_bind : MBind result := fun A B k m =>
  match m with
  | Ok a => k a
  | Err e => Err e
  end.

Fixpoint mapE {A B : Type} (f : A -> result B) (l : list A) : result (list B) :=
  match l with
  | [] => Ok []
  | a :: l' => b ← f a; bs ← mapE f l'; Ok (b :: bs)
  end.

Definition returns {A : Type} (m : result A) : Prop := exists a, m = Ok a.

(** ** Labels and examples *)

Definition RIDE : Z := 0.
Definition CARRY : Z := 1.
Definition OTHER : Z := 2.
Definition ABSTAIN : Z := -1.

Definition YMIN : nat := 0.
Definition YMAX : nat := 1.
Definition XMIN : nat := 2.
Definition XMAX : nat := 3.

(** One row of the relationship data frame. *)
Record Example : Type := {
  label : Z;
  object_bbox : list Z;
  object_category : string;
  source_img : string;
  subject_bbox : list Z;
  subject_category : string
}.

(** [bbox[i]] for a non-negative constant index. *)
Definition getitem (bbox : list Z) (i : nat) : result Z :=
  match bbox !! i with
  | Some v => Ok v
  | None => Err IndexError
  end.

(** [s in [...]] on a list of strings. *)
Definition str_in (s : string) (l : list string) : bool :=
  existsb (String.eqb s) l.

(** ** Category-based labeling functions *)

Definition lf_ride_object (x : Example) : result Z :=
  if String.eqb (subject_category x) "person" then
    if str_in (object_category x)
         ["bike"; "snowboard"; "motorcycle"; "horse"; "bus"; "truck"; "elephant"]
    then Ok RIDE
    else Ok ABSTAIN
  else Ok ABSTAIN.

Definition lf_carry_object (x : Example) : result Z :=
  if String.eqb (subject_category x) "person" then
    if str_in (object_category x) ["bag"; "surfboard"; "skis"]
    then Ok CARRY
    else Ok ABSTAIN
  else Ok ABSTAIN.

Definition lf_carry_subject (x : Example) : result Z :=
  if String.eqb (object_category x) "person" then
    if str_in (subject_category x)
         ["chair"; "bike"; "snowboard"; "motorcycle"; "horse"]
    then Ok CARRY
    else Ok ABSTAIN
  else Ok ABSTAIN.

Definition lf_not_person (x : Example) : result Z :=
  if negb (String.eqb (subject_category x) "person") then Ok OTHER
  else Ok ABSTAIN.

(** ** Distance- and size-based labeling functions *)

Definition lf_ydist (x : Example) : result Z :=
  s ← getitem (subject_bbox x) XMAX;
  o ← getitem (object_bbox x) XMAX;
  if s <? o then Ok OTHER else Ok ABSTAIN.

(** A box of image coordinates: every entry below 2^20 in magnitude. Such
    a list becomes an int64 array; its differences, their squares and the
    sums of those squares are exact in int64 and in a double, and its area
    is below 2^53. On these boxes the integer and rational arithmetic of
    [np_sub], [norm_le] and [truediv] below is what numpy and Python
    compute. Outside them numpy wraps around or changes the array type and
    Python's division rounds or raises OverflowError, which is not
    modelled: a statement about [lf_dist] or [lf_area] whose truth of the
    code depends on it is made for boxes of image coordinates. *)
Definition pixel_box (bbox : list Z) : bool :=
  forallb (fun c => Z.abs c <? 2 ^ 20) bbox.

(** [np.array(a) - np.array(b)] on one-dimensional int64 arrays of image
    coordinates: equal lengths subtract pointwise, a one-element array is
    broadcast, any other pair of lengths raises [ValueError]. *)
Definition np_sub (a b : list Z) : result (list Z) :=
  if (length a =? length b)%nat then Ok (zip_with Z.sub a b)
  else match a, b with
       | [a0], _ => Ok (map (fun v => a0 - v) b)
       | _, [b0] => Ok (map (fun v => v - b0) a)
       | _, _ => Err ValueError
       end.

Definition sum_sq (v : list Z) : Z :=
  foldr (fun c acc => c * c + acc) 0 v.

(** [np.linalg.norm(v) <= c] for a vector [v] of differences of image
    coordinates and a non-negative integer bound [c]: the Euclidean norm is
    at most [c] exactly when the sum of squares is at most [c * c]. The
    square root is monotone and correctly rounded, and the sum of squares is
    an exact double. *)
Definition norm_le (v : list Z) (c : Z) : bool :=
  sum_sq v <=? c * c.

Definition lf_dist (x : Example) : result Z :=
  d ← np_sub (subject_bbox x) (object_bbox x);
  if norm_le d 1000 then Ok OTHER else Ok ABSTAIN.

Definition area (bbox : list Z) : result Z :=
  ymax ← getitem bbox YMAX;
  ymin ← getitem bbox YMIN;
  xmax ← getitem bbox XMAX;
  xmin ← getitem bbox XMIN;
  Ok ((ymax - ymin) * (xmax - xmin)).

(** [a / b] on Python integers: true division, raising on a zero divisor
    (Python tests the divisor first). Python returns the correctly rounded
    double of the exact quotient kept here, and raises OverflowError when
    that exceeds the range of a double; for areas of boxes of image
    coordinates, which are below 2^53 in magnitude, it does not raise and
    the double compares with 0.5 as the exact quotient does. *)
Definition truediv (a b : Z) : result Q :=
  if b =? 0 then Err ZeroDivisionError
  else Ok (inject_Z a / inject_Z b)%Q.

Definition lf_area (x : Example) : result Z :=
  s ← area (subject_bbox x);
  o ← area (object_bbox x);
  r ← truediv s o;
  if Qle_bool r (1 # 2) then Ok OTHER else Ok ABSTAIN.

(** ** The label matrix *)

Definition lfs : list (Example -> result Z) :=
  [lf_ride_object; lf_carry_object; lf_carry_subject; lf_not_person;
   lf_ydist; lf_dist; lf_area].

Definition matrix : Type := list (list Z).

(** [PandasLFApplier(lfs).apply(df)]: one row per example, one column per
    labeling function; an exception of a labeling function propagates, and
    an empty data frame makes the applier raise ValueError. *)
Definition apply_lfs (fs : list (Example -> result Z)) (df : list Example)
  : result matrix :=
  match df with
  | [] => Err ValueError
  | _ :: _ => mapE (fun x => mapE (fun lf => lf x) fs) df
  end.

(** The class each labeling function votes for when it does not abstain,
    by column of [lfs]. *)
Definition polarity : list Z :=
  [RIDE; CARRY; CARRY; OTHER; OTHER; OTHER; OTHER].

(** A labeling function is unipolar for class [c] when every value it
    returns is [ABSTAIN] or [c]. *)
Definition unipolar (lf : Example -> result Z) (c : Z) : Prop :=
  forall x v, lf x = Ok v -> v = ABSTAIN \/ v = c.

(** The shape of an example on which every labeling function returns (for
    image coordinates, see [pixel_box]): both boxes have the four
    coordinates of the data set, and the object box has an area to divide
    by. *)
Definition well_formed (x : Example) : bool :=
  (length (subject_bbox x) =? 4)%nat
  && match area (object_bbox x) with
     | Ok a => (length (object_bbox x) =? 4)%nat && negb (a =? 0)
     | Err _ => false
     end.

(** Three rows used to run the labeling functions: a person on a horse, a
    person with a bag, and a car next to an object box of height zero. *)
Definition rider : Example :=
  {| label := 0;
     object_bbox := [120; 300; 40; 260];
     object_category := "horse";
     source_img := "rider.jpg";
     subject_bbox := [30; 250; 80; 200];
     subject_category := "person" |}.

Definition carried_bag : Example :=
  {| label := 1;
     object_bbox := [200; 320; 150; 240];
     object_category := "bag";
     source_img := "bag.jpg";
     subject_bbox := [50; 400; 100; 300];
     subject_category := "person" |}.

Definition flat_object : Example :=
  {| label := 2;
     object_bbox := [100; 100; 40; 260];
     object_category := "street";
     source_img := "street.jpg";
     subject_bbox := [30; 250; 80; 200];
     subject_category := "car" |}.

(** ** Dependency selection *)

(** A dependency between two labeling functions, by column index. *)
Definition edge : Type := (nat * nat)%type.

(** The estimators the notebook imports from [Our_Monitors] and
    [dependency_model]; each is called with the argument values the notebook
    passes ([k], [sig] or [thresh], [policy], [verbose],
    [return_more_info]). *)
Class Monitors : Type := {
  CDM : matrix -> list Z -> Z -> Q -> string -> bool -> bool -> result (list edge);
  CDGAM : matrix -> Z -> Q -> string -> bool -> bool -> result (list edge);
  NM : matrix -> list Z -> Z -> Q -> string -> bool -> bool -> result (list edge);
  ModVarma_InCov : matrix -> list Z -> Q -> result (list edge);
  get_varma_edges : matrix -> Q -> result (list edge);
  get_varma_with_gold_edges : matrix -> list Z -> Q -> result (list edge)
}.

(** [overall_deps_fn(deps_name, param)], with the globals [L_dev] and [Y_dev]
    it reads passed in. A name matching no branch leaves [deps] unbound, and
    the [return] raises. *)
Definition overall_deps_fn `{Monitors} (L_dev : matrix) (Y_dev : list Z)
    (deps_name : string) (param : Q) : result (list edge) :=
  if String.eqb deps_name "CDM" then
    CDM L_dev Y_dev 3 param "new" false false
  else if String.eqb deps_name "CDGAM" then
    CDGAM L_dev 3 param "new" false false
  else if String.eqb deps_name "NM" then
    NM L_dev Y_dev 3 param "old" false false
  else if String.eqb deps_name "NM_NP" then
    NM L_dev Y_dev 3 param "new" false false
  else if String.eqb deps_name "Mod_Varma" then
    ModVarma_InCov L_dev Y_dev param
  else if String.eqb deps_name "Varma" then
    get_varma_edges L_dev param
  else if String.eqb deps_name "Varma_Gold" then
    get_varma_with_gold_edges L_dev Y_dev param
  else if String.eqb deps_name "Empty" then
    Ok []
  else Err UnboundLocalError.

(** ** One trial of the validation sweep *)

(** The label model the notebook imports ([Informed_LabelModel]) and
    [probs_to_preds]. [fit] updates the object in place: it is given the
    object and returns its new state. Inference and scoring read it. *)
Class LabelModelAPI : Type := {
  label_model : Type;
  Informed_LabelModel : list edge -> Z -> bool -> label_model;
  fit : label_model -> matrix -> Z -> Q -> Q -> Z -> result label_model;
  predict_proba : label_model -> matrix -> result (list (list Q));
  score_accuracy : label_model -> matrix -> list Z -> result Q;
  probs_to_preds : list (list Q) -> list Z
}.

(** What the body of the innermost sweep loop binds. *)
Record trial_result `{LabelModelAPI} : Type := {
  tr_label_model : label_model;
  tr_probs_dev : list (list Q);
  tr_preds_dev : list Z;
  tr_f1 : Q
}.

(** The body of the innermost sweep loop, for the dependencies [deps] of the
    current policy: construct, fit on [L_train] with seed 12345, then infer
    and score on the validation split. *)
Definition trial `{LabelModelAPI} (deps : list edge) (L_train L_dev : matrix)
    (Y_dev : list Z) (n_eps : Z) (lr : Q) : result trial_result :=
  let label_model0 := Informed_LabelModel deps 3 true in
  fitted ← fit label_model0 L_train 12345 lr (inject_Z n_eps / 10)%Q n_eps;
  probs_dev ← predict_proba fitted L_dev;
  let preds_dev := probs_to_preds probs_dev in
  f1 ← score_accuracy fitted L_dev Y_dev;
  Ok {| tr_label_model := fitted; tr_probs_dev := probs_dev;
        tr_preds_dev := preds_dev; tr_f1 := f1 |}.

(** ** The dependency estimator of the design *)

Module DependencyEstimator.

(** Modelled from the spec: the estimator's policies (section 6); their code
    ([Our_Monitors], [dependency_model.varma_deps_functions]) is not part of
    the notebook. *)
Inductive policy : Type :=
  | CovarianceBased
  | GoldInformedCovarianceBased
  | EntropyBased
  | Empty.

(** Modelled from the spec: which policies need the gold vector [Y]. *)
Definition requires_gold (p : policy) : bool :=
  match p with
  | GoldInformedCovarianceBased => true
  | _ => false
  end.

(** Modelled from the spec: what a policy contributes to the skeleton of
    section 4.1, the statistic it computes for a pair of columns and the
    thresholds it accepts. Both are left open by the design. *)
Record statistics : Type := {
  pair_statistic : policy -> matrix -> option (list Z) -> Z -> nat -> nat -> Q;
  threshold_in_domain : policy -> Q -> bool
}.

(** Modelled from the spec: the column count [m_functions] of a label matrix
    given as a list of rows. *)
Definition m_functions (L : matrix) : nat :=
  match L with
  | [] => 0%nat
  | row :: _ => length row
  end.

(** Modelled from the spec: every unordered pair of columns, as in
    [for i in range(m): for j in range(i + 1, m)]. *)
Definition column_pairs (m : nat) : list edge :=
  flat_map (fun i => map (fun j => (i, j)) (seq (S i) (m - S i))) (seq 0 m).

(** Modelled from the spec: "declare an edge when the statistic's magnitude
    exceeds the significance threshold". *)
Definition exceeds (s threshold : Q) : bool :=
  negb (Qle_bool (Qabs s) threshold).

(** Modelled from the spec: [estimate_edges(L, Y?, k, significance_threshold,
    policy)] of section 4.1, with its [InvalidInput] conditions; the "empty"
    policy returns no edge whatever its inputs. *)
Definition estimate_edges (S : statistics) (L : matrix) (Y : option (list Z))
    (k : Z) (significance_threshold : Q) (p : policy) : result (list edge) :=
  match p with
  | Empty => Ok []
  | _ =>
    if (m_functions L <? 2)%nat then Err InvalidInput
    else if k <=? 1 then Err InvalidInput
    else if requires_gold p && negb (bool_decide (is_Some Y)) then Err InvalidInput
    else if negb (threshold_in_domain S p significance_threshold) then Err InvalidInput
    else Ok (List.filter
               (fun e => exceeds (pair_statistic S p L Y k e.1 e.2)
                                 significance_threshold)
               (column_pairs (m_functions L)))
  end.

(** Modelled from the spec: the votes of columns [i] and [j] on the rows
    where neither abstains. *)
Definition covotes (L : matrix) (i j : nat) : list (Z * Z) :=
  flat_map (fun row =>
    match row !! i, row !! j with
    | Some a, Some b =>
        if (a =? ABSTAIN) || (b =? ABSTAIN) then [] else [(a, b)]
    | _, _ => []
    end) L.

Definition sumZ (l : list Z) : Z := foldr Z.add 0 l.

(** Modelled from the spec: the covariance of two columns over their common
    votes, [E[ab] - E[a]E[b]], and zero when they share none. *)
Definition covariance (votes : list (Z * Z)) : Q :=
  match votes with
  | [] => 0%Q
  | _ =>
    let n := inject_Z (Z.of_nat (length votes)) in
    let sab := inject_Z (sumZ (map (fun ab => ab.1 * ab.2) votes)) in
    let sa := inject_Z (sumZ (map fst votes)) in
    let sb := inject_Z (sumZ (map snd votes)) in
    (sab / n - (sa / n) * (sb / n))%Q
  end.

(** Modelled from the spec: an instance of the policies' statistics, the
    covariance over common votes with any non-negative threshold. *)
Definition covariance_statistics : statistics :=
  {| pair_statistic := fun _ L _ _ i j => covariance (covotes L i j);
     threshold_in_domain := fun _ t => Qle_bool 0 t |}.

End DependencyEstimator.

(** ** The generative label model of the design *)

Module GenerativeLabelModel.

(** Modelled from the spec: the numeric procedures of section 4.2, whose
    code ([Our_Monitors.CD_Monitor.Informed_LabelModel]) is not part of the
    notebook: seeded initialisation, one optimisation step, the divergence
    test, inference from frozen parameters, and the metrics. *)
Record numerics : Type := {
  parameters : Type;
  initialise : Z -> nat -> nat -> list edge -> parameters;
  epoch : Q -> matrix -> list edge -> parameters -> parameters;
  is_finite : parameters -> bool;
  infer : parameters -> nat -> matrix -> list (list Q);
  metric_value : string -> list nat -> list Z -> Q
}.

(** Modelled from the spec: the states a model rests in between calls.
    [Fitting] is internal to [fit], which runs to completion (section 5). *)
Inductive state (P : Type) : Type :=
  | Unfitted
  | Fitted (m_fit : nat) (theta : P).
Arguments Unfitted {P}.
Arguments Fitted {P} m_fit theta.

(** Modelled from the spec: a model holds its cardinality, fixed at
    construction, and its state. *)
Record model (N : numerics) : Type := {
  cardinality : nat;
  phase : state (parameters N)
}.
Arguments cardinality {N} m.
Arguments phase {N} m.

(** Modelled from the spec: a model starts [Unfitted]. *)
Definition new_model (N : numerics) (card : nat) : model N :=
  {| cardinality := card; phase := Unfitted |}.

(** Modelled from the spec: [fit(L_train, edges, seed, learning_rate,
    n_epochs, log_frequency)] starts from the seeded initialisation, runs
    exactly [n_epochs] steps, and reports non-finite parameters as
    [FitDivergence]. *)
Definition fit {N : numerics} (m : model N) (L_train : matrix)
    (edges : list edge) (seed : Z) (learning_rate : Q) (n_epochs : nat)
    (log_frequency : Q) : result (model N) :=
  let m_fit := DependencyEstimator.m_functions L_train in
  let theta :=
    Nat.iter n_epochs (epoch N learning_rate L_train edges)
             (initialise N seed m_fit (cardinality m) edges) in
  if is_finite N theta
  then Ok {| cardinality := cardinality m; phase := Fitted m_fit theta |}
  else Err FitDivergence.

(** Modelled from the spec: [predict_proba(L)] needs the [Fitted] state and
    the column count of fit time. *)
Definition predict_proba {N : numerics} (m : model N) (L : matrix)
  : result (list (list Q)) :=
  match phase m with
  | Unfitted => Err ModelNotFittedError
  | Fitted m_fit theta =>
    if (DependencyEstimator.m_functions L =? m_fit)%nat
    then Ok (infer N theta (cardinality m) L)
    else Err ShapeMismatch
  end.

Fixpoint argmax_from (best_i : nat) (best : Q) (i : nat) (l : list Q) : nat :=
  match l with
  | [] => best_i
  | q :: l' =>
    if Qle_bool q best then argmax_from best_i best (S i) l'
    else argmax_from i q (S i) l'
  end.

(** Modelled from the spec: hard prediction by arg-max, the lowest class
    index winning a tie. *)
Definition argmax (row : list Q) : nat :=
  match row with
  | [] => 0%nat
  | q :: l => argmax_from 0 q 1 l
  end.

(** Modelled from the spec: [score(L, Y, metric)] needs the [Fitted] state
    and as many gold labels as rows. *)
Definition score {N : numerics} (m : model N) (L : matrix) (Y : list Z)
    (metric : string) : result Q :=
  match phase m with
  | Unfitted => Err ModelNotFittedError
  | Fitted _ _ =>
    if (length L =? length Y)%nat then
      probs ← predict_proba m L;
      Ok (metric_value N metric (map argmax probs) Y)
    else Err ShapeMismatch
  end.

(** Modelled from the spec: the calls a driver can make on one instance. *)
Inductive call : Type :=
  | CallFit (L_train : matrix) (edges : list edge) (seed : Z)
            (learning_rate : Q) (n_epochs : nat) (log_frequency : Q)
  | CallPredictProba (L : matrix)
  | CallScore (L : matrix) (Y : list Z) (metric : string).

(** Modelled from the spec: the instance after one call. A successful [fit]
    replaces the state; a failed one and the two queries leave it. *)
Definition after {N : numerics} (m : model N) (c : call) : model N :=
  match c with
  | CallFit L e s lr n lf =>
    match fit m L e s lr n lf with
    | Ok m' => m'
    | Err _ => m
    end
  | _ => m
  end.

(** Modelled from the spec: the instance after a sequence of calls. *)
Definition after_all {N : numerics} (m : model N) (cs : list call) : model N :=
  foldl after m cs.

(** Modelled from the spec: whether the call is a [fit] that succeeds. *)
Definition fit_succeeds {N : numerics} (m : model N) (c : call) : bool :=
  match c with
  | CallFit L e s lr n lf =>
    match fit m L e s lr n lf with
    | Ok _ => true
    | Err _ => false
    end
  | _ => false
  end.

(** Modelled from the spec: how many of the calls [cs], made in order on
    [m], are successful fits. *)
Fixpoint successful_fits {N : numerics} (m : model N) (cs : list call) : nat :=
  match cs with
  | [] => 0%nat
  | c :: cs' =>
    ((if fit_succeeds m c then 1 else 0) + successful_fits (after m c) cs')%nat
  end.

(** Modelled from the spec: a one-parameter instance of the numerics, a
    scalar decaying at the learning rate, finite while below a bound. *)
Definition scalar_numerics : numerics :=
  {| parameters := Q;
     initialise := fun seed _ _ _ => inject_Z seed;
     epoch := fun lr _ _ theta => (theta - lr * theta)%Q;
     is_finite := fun theta => Qle_bool (Qabs theta) 1000;
     infer := fun theta card L => map (fun _ => repeat (1 # 2)%Q card) L;
     metric_value := fun _ preds Y =>
       inject_Z (Z.of_nat (length (List.filter
         (fun pg => Z.of_nat pg.1 =? pg.2) (zip preds Y)))) |}.

End GenerativeLabelModel.

(** ** A small implementation of the label-model interface

    Used to run [trial] on concrete data: the model stores its edges and the
    column count seen by [fit], votes uniformly, and reports accuracy as the
    share of gold labels equal to [RIDE]. *)

Record counting_model : Type := {
  cm_edges : list edge;
  cm_cardinality : Z;
  cm_columns : option nat
}.

Definition counting_api : LabelModelAPI := {|
  label_model := counting_model;
  Informed_LabelModel := fun deps card _ =>
    {| cm_edges := deps; cm_cardinality := card; cm_columns := None |};
  fit := fun m L _ _ _ n_epochs =>
    if n_epochs <=? 0 then Err ValueError
    else Ok {| cm_edges := cm_edges m; cm_cardinality := cm_cardinality m;
               cm_columns := Some (DependencyEstimator.m_functions L) |};
  predict_proba := fun m L =>
    match cm_columns m with
    | None => Err ValueError
    | Some _ => Ok (map (fun _ => [1 # 3; 1 # 3; 1 # 3]%Q) L)
    end;
  score_accuracy := fun m L Y =>
    match cm_columns m with
    | None => Err ValueError
    | Some _ =>
      Ok (inject_Z (Z.of_nat (length (List.filter (Z.eqb RIDE) Y)))
          / inject_Z (Z.of_nat (length Y)))%Q
    end;
  probs_to_preds := fun probs => map (fun _ => RIDE) probs
|}.

(** ** The validation sweep and the test run *)

(** The grids of the validation cell. The decimal literals are kept as
    rationals; the sweep only passes them on. [epochs_list] is the literal
    list reversed ([[::-1]]). *)
Definition epochs_list : list Z := rev [50; 100; 500; 1000; 5000].
Definition sig_list : list Q :=
  [1 # 100; 5 # 100; 1 # 10; 5 # 10; 75 # 100; 9 # 10]%Q.
Definition sig_crazy_list : list Q := [75 # 100; 9 # 10]%Q.
Definition thresh_list : list Q := [1 # 10; 5 # 10; 1; 15 # 10]%Q.
Definition lr_list : list Q := [1 # 100; 25 # 1000; 5 # 100; 1 # 10]%Q.

Definition deps_names : list string :=
  ["NM_NP"; "CDGAM"; "Varma_Gold"; "Varma"; "Empty"].

(** One value of the [info] dictionary. *)
Record grid : Type := {
  deps_params : list Q;
  snorkel_eps : list Z;
  snorkel_lr : list Q
}.

(** The [info] dictionary: the grid swept for each policy name. *)
Definition info : gmap string grid :=
  list_to_map
    [("CDM", {| deps_params := sig_list; snorkel_eps := epochs_list;
                snorkel_lr := lr_list |});
     ("NM", {| deps_params := sig_list; snorkel_eps := epochs_list;
               snorkel_lr := lr_list |});
     ("NM_NP", {| deps_params := sig_list; snorkel_eps := epochs_list;
                  snorkel_lr := lr_list |});
     ("CDGAM", {| deps_params := sig_list; snorkel_eps := epochs_list;
                  snorkel_lr := lr_list |});
     ("Mod_Varma", {| deps_params := thresh_list; snorkel_eps := epochs_list;
                      snorkel_lr := lr_list |});
     ("Varma", {| deps_params := thresh_list; snorkel_eps := epochs_list;
                  snorkel_lr := lr_list |});
     ("Varma_Gold", {| deps_params := thresh_list; snorkel_eps := epochs_list;
                       snorkel_lr := lr_list |});
     ("Empty", {| deps_params := [-1]%Q; snorkel_eps := epochs_list;
                  snorkel_lr := lr_list |})].

(** One value of [f1_based_store]: the best configuration of a policy so
    far. *)
Record best : Type := {
  best_param : Q;
  best_n_eps : Z;
  best_lr : Q;
  best_f1 : Q
}.

Definition placeholder : best :=
  {| best_param := -1; best_n_eps := -1; best_lr := -1; best_f1 := -1 |}%Q.

(** [{key: {...} for key in names}]. *)
Definition init_store (names : list string) : gmap string best :=
  list_to_map ((fun key => (key, placeholder)) <$> names).

Definition init_test_store (names : list string) : gmap string Q :=
  list_to_map ((fun key => (key, (-1)%Q)) <$> names).

(** What a cell of the sweep can raise: a missing dictionary key, or an
    exception of the code it calls. *)
Inductive cell_exn : Type :=
  | KeyError (key : string)
  | Raised (e : exn).

Inductive outcome (A : Type) : Type :=
  | Done (a : A)
  | Failed (e : cell_exn).
Arguments Done {A} a.
Arguments Failed {A} e.

#[global] Instance outcome_ret : MRet outcome := fun A a => Done a.

#[global] Instance outcome_bind : MBind outcome := fun A B k m =>
  match m with
  | Done a => k a
  | Failed e => Failed e
  end.

Definition lift {A : Type} (r : result A) : outcome A :=
  match r with
  | Ok a => Done a
  | Err e => Failed (Raised e)
  end.

(** [d[key]]. *)
Definition dict_get {V : Type} (d : gmap string V) (key : string) : outcome V :=
  match d !! key with
  | Some v => Done v
  | None => Failed (KeyError key)
  end.

(** A [for] loop over [l] whose body [body] updates the state and may
    raise. *)
Fixpoint for_each {A S : Type} (body : S -> A -> outcome S) (l : list A)
    (s : S) : outcome S :=
  match l with
  | [] => Done s
  | a :: l' => s' ← body s a; for_each body l' s'
  end.

(** [[f(a) for a in l]]. *)
Fixpoint comprehension {A B : Type} (f : A -> outcome B) (l : list A)
  : outcome (list B) :=
  match l with
  | [] => Done []
  | a :: l' => b ← f a; bs ← comprehension f l'; Done (b :: bs)
  end.

(** Python's [sum] and [len] on lists. *)
Definition sum (l : list Z) : Z := foldr Z.add 0 l.

Definition len {A : Type} (l : list A) : Z := Z.of_nat (length l).

(** The variables the sweep loop updates. *)
Record sweep_state : Type := {
  f1_based_store : gmap string best;
  ct : Z
}.

(** [f1 > old] on scores, kept as rationals (a NaN score, which compares
    false, is outside this model). *)
Definition Qgt_bool (a b : Q) : bool := negb (Qle_bool a b).

(** The end of the innermost loop body: keep the trial's configuration when
    its score is strictly above the stored one, then count the trial. *)
Definition record_trial (deps_name : string) (param : Q) (n_eps : Z) (lr f1 : Q)
    (s : sweep_state) : outcome sweep_state :=
  old ← dict_get (f1_based_store s) deps_name;
  let store :=
    if Qgt_bool f1 (best_f1 old)
    then <[deps_name := {| best_param := param; best_n_eps := n_eps;
                           best_lr := lr; best_f1 := f1 |}]> (f1_based_store s)
    else f1_based_store s in
  Done {| f1_based_store := store; ct := ct s + 1 |}.

Section Sweep.
Context `{Monitors} `{LabelModelAPI}.
Variable info_ : gmap string grid.
Variables L_train L_dev : matrix.
Variable Y_dev : list Z.

(** The body of [for lr in info[deps_name]['snorkel_lr']]. *)
Definition sweep_lr (deps_name : string) (param : Q) (deps : list edge)
    (n_eps : Z) (s : sweep_state) (lr : Q) : outcome sweep_state :=
  r ← lift (trial deps L_train L_dev Y_dev n_eps lr);
  record_trial deps_name param n_eps lr (tr_f1 r) s.

(** The body of [for n_eps in info[deps_name]['snorkel_eps']]. *)
Definition sweep_eps (deps_name : string) (param : Q) (deps : list edge)
    (s : sweep_state) (n_eps : Z) : outcome sweep_state :=
  g ← dict_get info_ deps_name;
  for_each (sweep_lr deps_name param deps n_eps) (snorkel_lr g) s.

(** The body of [for param in info[deps_name]['deps_params']]. *)
Definition sweep_param (deps_name : string) (s : sweep_state) (param : Q)
  : outcome sweep_state :=
  deps ← lift (overall_deps_fn L_dev Y_dev deps_name param);
  g ← dict_get info_ deps_name;
  for_each (sweep_eps deps_name param deps) (snorkel_eps g) s.

(** The body of [for deps_name in deps_names]. *)
Definition sweep_name (s : sweep_state) (deps_name : string)
  : outcome sweep_state :=
  g ← dict_get info_ deps_name;
  for_each (sweep_param deps_name) (deps_params g) s.

(** [total]: the number of trials the progress line announces. *)
Definition total (names : list string) : outcome Z :=
  lens ← comprehension
           (fun deps_name => g ← dict_get info_ deps_name;
                             Done (len (deps_params g))) names;
  Done (sum lens * len epochs_list * len lr_list).

(** The validation cell from [f1_based_store = ...] on, for the globals
    [info] and [deps_names] given: the final loop variables and [total]. *)
Definition sweep (names : list string) : outcome (sweep_state * Z) :=
  let s0 := {| f1_based_store := init_store names; ct := 0 |} in
  tot ← total names;
  s ← for_each sweep_name names s0;
  Done (s, tot).

(** The configuration [b] stored for [deps_name] is a grid point of its
    [info] entry whose trial returned the stored score, above the
    placeholder's. *)
Definition selected (deps_name : string) (b : best) : Prop :=
  exists g deps r,
    info_ !! deps_name = Some g /\
    best_param b ∈ deps_params g /\
    best_n_eps b ∈ snorkel_eps g /\
    best_lr b ∈ snorkel_lr g /\
    overall_deps_fn L_dev Y_dev deps_name (best_param b) = Ok deps /\
    trial deps L_train L_dev Y_dev (best_n_eps b) (best_lr b) = Ok r /\
    best_f1 b = tr_f1 r /\
    (-1 < best_f1 b)%Q.

(** Every entry of the store is the placeholder or a selected
    configuration. *)
Definition tracked (s : sweep_state) : Prop :=
  forall key b, f1_based_store s !! key = Some b ->
    b = placeholder \/ selected key b.

Variable L_test : matrix.
Variable Y_test : list Z.

(** The body of the test cell's loop: refit the stored configuration and
    score it on the test split. *)
Definition test_name (store : gmap string best)
    (f1_based_test_store : gmap string Q) (deps_name : string)
  : outcome (gmap string Q) :=
  b ← dict_get store deps_name;
  deps ← lift (overall_deps_fn L_dev Y_dev deps_name (best_param b));
  r ← lift (trial deps L_train L_test Y_test (best_n_eps b) (best_lr b));
  Done (<[deps_name := tr_f1 r]> f1_based_test_store).

(** The test cell. *)
Definition test_run (store : gmap string best) (names : list string)
  : outcome (gmap string Q) :=
  for_each (test_name store) names (init_test_store names).

End Sweep.

(** Every policy's stored score in [s'] is at least its stored score in
    [s]. *)
Definition improves (s s' : sweep_state) : Prop :=
  forall key b, f1_based_store s !! key = Some b ->
    exists b', f1_based_store s' !! key = Some b' /\
               (best_f1 b <= best_f1 b')%Q.

(** The store's keys are [keys]. *)
Definition keyed (keys : gset string) (s : sweep_state) : Prop :=
  dom (f1_based_store s) = keys.

(** The number of trials the loops run for one policy name. *)
Definition trials_of (info_ : gmap string grid) (deps_name : string) : Z :=
  match info_ !! deps_name with
  | Some g => len (deps_params g) * (len (snorkel_eps g) * len (snorkel_lr g))
  | None => 0
  end.

(** A stand-in for the imported estimators, used to run [overall_deps_fn]
    and the sweep: the gold-informed ones link column 0 to the number of
    gold labels, the others to the number of rows. *)
Definition stub_monitors : Monitors :=
  {| CDM := fun L Y _ _ _ _ _ => Ok [(0%nat, length Y)];
     CDGAM := fun L _ _ _ _ _ => Ok [(0%nat, length L)];
     NM := fun L Y _ _ _ _ _ => Ok [(0%nat, length Y)];
     ModVarma_InCov := fun L Y _ => Ok [(0%nat, length Y)];
     get_varma_edges := fun L _ => Ok [(0%nat, length L)];
     get_varma_with_gold_edges := fun L Y _ => Ok [(0%nat, length Y)] |}.

(** * Properties *)

(** ** The error monad *)

Lemma bind_Ok {A B : Type} (m : result A) (k : A -> result B) (b : B) :
  m ≫= k = Ok b <-> exists a, m = Ok a /\ k a = Ok b.
Proof.
  destruct m as [a | e]; simpl.
  - split; [intros Hk; exists a; auto | intros (a' & Ha & Hk); congruence].
  - split; [discriminate | intros (a' & Ha & _); discriminate].
Qed.

Lemma mapE_Ok_lookup {A B : Type} (f : A -> result B) (l : list A) (bs : list B) :
  mapE f l = Ok bs ->
  forall (j : nat) (b : B), bs !! j = Some b ->
    exists a, l !! j = Some a /\ f a = Ok b.
Proof.
  revert bs. induction l as [| a l IH]; intros bs Hm j b Hj; simpl in Hm.
  - injection Hm as <-. discriminate.
  - apply bind_Ok in Hm as (b0 & Hb0 & Hm).
    apply bind_Ok in Hm as (bs' & Hbs' & Hm).
    injection Hm as <-.
    destruct j as [| j]; simpl in Hj.
    + injection Hj as <-. exists a. auto.
    + destruct (IH bs' Hbs' j b Hj) as (a' & Ha' & Hf). exists a'. auto.
Qed.

Lemma mapE_returns {A B : Type} (f : A -> result B) (l : list A) :
  (forall a, a ∈ l -> returns (f a)) -> returns (mapE f l).
Proof.
  induction l as [| a l IH]; intros Hall; simpl.
  - exists []. reflexivity.
  - destruct (Hall a) as [b Hb]; [left |].
    destruct IH as [bs Hbs]; [intros a' Ha'; apply Hall; right; exact Ha' |].
    rewrite Hb, Hbs. simpl. exists (b :: bs). reflexivity.
Qed.

(** ** Dependency selection *)

(** C3: with the policy name "Empty", [overall_deps_fn] returns the empty
    list of edges for every label matrix, every gold vector and every
    parameter, whatever the imported estimators compute. *)
Theorem overall_deps_fn_Empty `{Monitors} (L_dev : matrix) (Y_dev : list Z)
    (param : Q) :
  overall_deps_fn L_dev Y_dev "Empty" param = Ok [].
Proof.
  unfold overall_deps_fn.
  repeat match goal with
  | |- context [String.eqb "Empty" ?s] =>
      change (String.eqb "Empty" s) with false; cbv iota
  end.
  reflexivity.
Qed.

(** ** Labeling functions on bounding boxes *)

Lemma getitem_Ok (bbox : list Z) (i : nat) (v : Z) :
  getitem bbox i = Ok v <-> bbox !! i = Some v.
Proof.
  unfold getitem. destruct (bbox !! i); split; congruence.
Qed.

Lemma lf_ydist_lookup (x : Example) (s o : Z) :
  subject_bbox x !! XMAX = Some s ->
  object_bbox x !! XMAX = Some o ->
  lf_ydist x = Ok (if s <? o then OTHER else ABSTAIN).
Proof.
  intros Hs Ho. unfold lf_ydist.
  apply getitem_Ok in Hs, Ho. rewrite Hs, Ho. simpl.
  destruct (s <? o); reflexivity.
Qed.

Lemma lf_ydist_reads_xmax_only (x x' : Example) :
  subject_bbox x !! XMAX = subject_bbox x' !! XMAX ->
  object_bbox x !! XMAX = object_bbox x' !! XMAX ->
  lf_ydist x = lf_ydist x'.
Proof.
  intros Hs Ho. unfold lf_ydist, getitem. rewrite Hs, Ho. reflexivity.
Qed.

Lemma lf_ydist_missing (x : Example) :
  subject_bbox x !! XMAX = None \/ object_bbox x !! XMAX = None ->
  lf_ydist x = Err IndexError.
Proof.
  unfold lf_ydist, getitem. intros [Hs | Ho].
  - rewrite Hs. reflexivity.
  - rewrite Ho. destruct (subject_bbox x !! XMAX); reflexivity.
Qed.

(** C9: [lf_ydist] compares the x-maximum coordinates (index 3) of the two
    boxes: it returns OTHER (2) when the subject's is smaller and ABSTAIN
    (-1) otherwise, it raises IndexError when a box has no index 3, and its
    result depends on no other entry of either box, so no y-coordinate is
    read. *)
Theorem lf_ydist_compares_xmax :
  XMAX = 3%nat /\ OTHER = 2 /\ ABSTAIN = -1 /\
  (forall x s o,
     subject_bbox x !! XMAX = Some s ->
     object_bbox x !! XMAX = Some o ->
     (s < o -> lf_ydist x = Ok OTHER) /\
     (o <= s -> lf_ydist x = Ok ABSTAIN)) /\
  (forall x,
     subject_bbox x !! XMAX = None \/ object_bbox x !! XMAX = None ->
     lf_ydist x = Err IndexError) /\
  (forall x x',
     subject_bbox x !! XMAX = subject_bbox x' !! XMAX ->
     object_bbox x !! XMAX = object_bbox x' !! XMAX ->
     lf_ydist x = lf_ydist x').
Proof.
  split; [reflexivity |]. split; [reflexivity |]. split; [reflexivity |].
  split; [| split].
  - intros x s o Hs Ho. rewrite (lf_ydist_lookup x s o Hs Ho). split.
    + intros Hlt. apply Z.ltb_lt in Hlt. rewrite Hlt. reflexivity.
    + intros Hle. apply Z.ltb_ge in Hle. rewrite Hle. reflexivity.
  - apply lf_ydist_missing.
  - apply lf_ydist_reads_xmax_only.
Qed.

Lemma lf_ydist_compares_xmax_witness :
  lf_ydist rider = Ok OTHER /\ lf_ydist carried_bag = Ok ABSTAIN.
Proof.
  destruct lf_ydist_compares_xmax as (_ & _ & _ & Hcmp & _).
  split.
  - apply (Hcmp rider 200 260); [reflexivity | reflexivity | lia].
  - apply (Hcmp carried_bag 300 240); [reflexivity | reflexivity | lia].
Defined.

Lemma area_four (y0 y1 x0 x1 : Z) :
  area [y0; y1; x0; x1] = Ok ((y1 - y0) * (x1 - x0)).
Proof. reflexivity. Qed.

Lemma lf_area_four (x : Example) (sy0 sy1 sx0 sx1 oy0 oy1 ox0 ox1 : Z) :
  subject_bbox x = [sy0; sy1; sx0; sx1] ->
  object_bbox x = [oy0; oy1; ox0; ox1] ->
  lf_area x =
    (r ← truediv ((sy1 - sy0) * (sx1 - sx0)) ((oy1 - oy0) * (ox1 - ox0));
     if Qle_bool r (1 # 2) then Ok OTHER else Ok ABSTAIN).
Proof.
  intros Hs Ho. unfold lf_area. rewrite Hs, Ho, !area_four. reflexivity.
Qed.

Lemma lf_area_raises (x : Example) (sy0 sy1 sx0 sx1 oy0 oy1 ox0 ox1 : Z) :
  subject_bbox x = [sy0; sy1; sx0; sx1] ->
  object_bbox x = [oy0; oy1; ox0; ox1] ->
  (oy1 - oy0) * (ox1 - ox0) = 0 <-> lf_area x = Err ZeroDivisionError.
Proof.
  intros Hs Ho. rewrite (lf_area_four x _ _ _ _ _ _ _ _ Hs Ho).
  unfold truediv.
  destruct (Z.eqb_spec ((oy1 - oy0) * (ox1 - ox0)) 0) as [Hz | Hnz]; simpl.
  - tauto.
  - split; [contradiction |]. destruct (Qle_bool _ _); discriminate.
Qed.

Lemma lf_area_returns (x : Example) (sy0 sy1 sx0 sx1 oy0 oy1 ox0 ox1 : Z) :
  subject_bbox x = [sy0; sy1; sx0; sx1] ->
  object_bbox x = [oy0; oy1; ox0; ox1] ->
  (oy1 - oy0) * (ox1 - ox0) <> 0 <-> returns (lf_area x).
Proof.
  intros Hs Ho. rewrite (lf_area_four x _ _ _ _ _ _ _ _ Hs Ho).
  unfold truediv, returns.
  destruct (Z.eqb_spec ((oy1 - oy0) * (ox1 - ox0)) 0) as [Hz | Hnz]; simpl.
  - split; [contradiction | intros [v Hv]; discriminate].
  - split; [| auto]. intros _. destruct (Qle_bool _ _); eexists; reflexivity.
Qed.

(** C8: on an example whose boxes have their four coordinates, [lf_area]
    raises ZeroDivisionError exactly when the object box's area
    [(ymax - ymin) * (xmax - xmin)] is zero. On boxes of image coordinates
    it returns a label exactly when that area is not zero; for a box with
    [ymin <= ymax] and [xmin <= xmax] that is exactly when the area is
    positive. *)
Theorem lf_area_zero_object_area
    (x : Example) (sy0 sy1 sx0 sx1 oy0 oy1 ox0 ox1 : Z) :
  subject_bbox x = [sy0; sy1; sx0; sx1] ->
  object_bbox x = [oy0; oy1; ox0; ox1] ->
  area (object_bbox x) = Ok ((oy1 - oy0) * (ox1 - ox0)) /\
  ((oy1 - oy0) * (ox1 - ox0) = 0 <-> lf_area x = Err ZeroDivisionError) /\
  (pixel_box (subject_bbox x) = true -> pixel_box (object_bbox x) = true ->
   ((oy1 - oy0) * (ox1 - ox0) <> 0 <-> returns (lf_area x)) /\
   (oy0 <= oy1 -> ox0 <= ox1 ->
    (0 < (oy1 - oy0) * (ox1 - ox0) <-> returns (lf_area x)))).
Proof.
  intros Hs Ho.
  pose proof (lf_area_raises x _ _ _ _ _ _ _ _ Hs Ho) as Hzero.
  pose proof (lf_area_returns x _ _ _ _ _ _ _ _ Hs Ho) as Hret.
  split; [rewrite Ho; apply area_four |].
  split; [exact Hzero |]. intros _ _. split; [exact Hret |].
  intros Hy Hx. rewrite <- Hret. nia.
Qed.

Lemma lf_area_zero_object_area_witness :
  lf_area flat_object = Err ZeroDivisionError /\ returns (lf_area rider).
Proof.
  split.
  - destruct (lf_area_zero_object_area flat_object 30 250 80 200 100 100 40 260)
      as (_ & Hzero & _); [reflexivity | reflexivity |].
    apply Hzero. reflexivity.
  - destruct (lf_area_zero_object_area rider 30 250 80 200 120 300 40 260)
      as (_ & _ & Hret); [reflexivity | reflexivity |].
    destruct Hret as [Hret _]; [reflexivity | reflexivity |].
    apply Hret. discriminate.
Defined.

(** ** Polarity of the labeling functions *)

Ltac label_cases :=
  repeat match goal with
  | H : (if ?b then _ else _) = Ok _ |- _ => destruct b
  | H : (_ ≫= _) = Ok _ |- _ => apply bind_Ok in H as (? & ? & H)
  | H : Ok _ = Ok _ |- _ => injection H as <-
  end; auto.

Lemma lf_ride_object_unipolar : unipolar lf_ride_object RIDE.
Proof. intros x v Hv. unfold lf_ride_object in Hv. label_cases. Qed.

Lemma lf_carry_object_unipolar : unipolar lf_carry_object CARRY.
Proof. intros x v Hv. unfold lf_carry_object in Hv. label_cases. Qed.

Lemma lf_carry_subject_unipolar : unipolar lf_carry_subject CARRY.
Proof. intros x v Hv. unfold lf_carry_subject in Hv. label_cases. Qed.

Lemma lf_not_person_unipolar : unipolar lf_not_person OTHER.
Proof. intros x v Hv. unfold lf_not_person in Hv. label_cases. Qed.

Lemma lf_ydist_unipolar : unipolar lf_ydist OTHER.
Proof. intros x v Hv. unfold lf_ydist in Hv. label_cases. Qed.

Lemma lf_dist_unipolar : unipolar lf_dist OTHER.
Proof. intros x v Hv. unfold lf_dist in Hv. label_cases. Qed.

Lemma lf_area_unipolar : unipolar lf_area OTHER.
Proof. intros x v Hv. unfold lf_area in Hv. label_cases. Qed.

Lemma lfs_polarity (j : nat) (lf : Example -> result Z) :
  lfs !! j = Some lf -> exists c, polarity !! j = Some c /\ unipolar lf c.
Proof.
  intros Hj.
  do 7 (destruct j as [| j];
        [injection Hj as <-; eexists; split; [reflexivity |];
         first [ exact lf_ride_object_unipolar | exact lf_carry_object_unipolar
               | exact lf_carry_subject_unipolar | exact lf_not_person_unipolar
               | exact lf_ydist_unipolar | exact lf_dist_unipolar
               | exact lf_area_unipolar ] |]).
  discriminate.
Qed.

Lemma length_four {A : Type} (l : list A) :
  length l = 4%nat -> exists a b c d, l = [a; b; c; d].
Proof.
  intros Hl. do 4 (destruct l as [| ? l]; [discriminate |]).
  destruct l; [eauto | discriminate].
Qed.

Lemma well_formed_boxes (x : Example) :
  well_formed x = true ->
  exists sy0 sy1 sx0 sx1 oy0 oy1 ox0 ox1,
    subject_bbox x = [sy0; sy1; sx0; sx1] /\
    object_bbox x = [oy0; oy1; ox0; ox1] /\
    (oy1 - oy0) * (ox1 - ox0) <> 0.
Proof.
  unfold well_formed. intros Hwf.
  apply andb_true_iff in Hwf as [Hs Ho].
  apply Nat.eqb_eq, length_four in Hs as (sy0 & sy1 & sx0 & sx1 & Hs).
  destruct (area (object_bbox x)) as [a |] eqn:Ha; [| discriminate].
  apply andb_true_iff in Ho as [Ho Hnz].
  apply Nat.eqb_eq, length_four in Ho as (oy0 & oy1 & ox0 & ox1 & Ho).
  exists sy0, sy1, sx0, sx1, oy0, oy1, ox0, ox1.
  split; [exact Hs |]. split; [exact Ho |].
  rewrite Ho, area_four in Ha. injection Ha as <-.
  apply negb_true_iff, Z.eqb_neq in Hnz. exact Hnz.
Qed.

Lemma lfs_return (x : Example) (lf : Example -> result Z) :
  well_formed x = true -> lf ∈ lfs -> returns (lf x).
Proof.
  intros Hwf Hin.
  destruct (well_formed_boxes x Hwf)
    as (sy0 & sy1 & sx0 & sx1 & oy0 & oy1 & ox0 & ox1 & Hs & Ho & Hnz).
  unfold lfs in Hin.
  repeat (apply elem_of_cons in Hin as [-> | Hin]);
    [ .. | apply elem_of_nil in Hin; contradiction ].
  - unfold lf_ride_object, returns.
    destruct (String.eqb _ _); [destruct (str_in _ _) |]; eauto.
  - unfold lf_carry_object, returns.
    destruct (String.eqb _ _); [destruct (str_in _ _) |]; eauto.
  - unfold lf_carry_subject, returns.
    destruct (String.eqb _ _); [destruct (str_in _ _) |]; eauto.
  - unfold lf_not_person, returns. destruct (negb _); eauto.
  - unfold returns.
    rewrite (lf_ydist_lookup x sx1 ox1); [eauto | rewrite Hs | rewrite Ho];
      reflexivity.
  - unfold lf_dist, returns, np_sub. rewrite Hs, Ho. simpl.
    destruct (norm_le _ _); eauto.
  - apply (lf_area_returns x _ _ _ _ _ _ _ _ Hs Ho). exact Hnz.
Qed.

Lemma apply_lfs_Ok (fs : list (Example -> result Z)) (df : list Example)
    (L : matrix) :
  apply_lfs fs df = Ok L ->
  df <> [] /\ mapE (fun x => mapE (fun lf => lf x) fs) df = Ok L.
Proof.
  unfold apply_lfs. destruct df as [| x df]; [discriminate |].
  intros HL. split; [discriminate | exact HL].
Qed.

Lemma apply_lfs_entry (fs : list (Example -> result Z)) (df : list Example)
    (L : matrix) (row : list Z) (j : nat) (v : Z) :
  apply_lfs fs df = Ok L -> row ∈ L -> row !! j = Some v ->
  exists x lf, x ∈ df /\ fs !! j = Some lf /\ lf x = Ok v.
Proof.
  intros HL Hrow Hv. apply apply_lfs_Ok in HL as [_ HL].
  apply list_elem_of_lookup in Hrow as [i Hi].
  destruct (mapE_Ok_lookup _ _ _ HL i row Hi) as (x & Hx & Hfx).
  destruct (mapE_Ok_lookup _ _ _ Hfx j v Hv) as (lf & Hlf & Hlfx).
  exists x, lf. split; [| auto].
  apply list_elem_of_lookup. exists i. exact Hx.
Qed.

(** C10: each of the seven labeling functions returns only ABSTAIN or its
    one class (RIDE for lf_ride_object, CARRY for lf_carry_object and
    lf_carry_subject, OTHER for lf_not_person, lf_ydist, lf_dist and
    lf_area); on an example with four-coordinate boxes of image coordinates
    and an object box of non-zero area all seven return; and every entry of
    column [j] of a label matrix built from them is ABSTAIN or the class of
    column [j]. *)
Theorem labeling_functions_unipolar :
  ABSTAIN = -1 /\
  (unipolar lf_ride_object RIDE /\ unipolar lf_carry_object CARRY /\
   unipolar lf_carry_subject CARRY /\ unipolar lf_not_person OTHER /\
   unipolar lf_ydist OTHER /\ unipolar lf_dist OTHER /\
   unipolar lf_area OTHER) /\
  (forall x lf,
     well_formed x = true ->
     pixel_box (subject_bbox x) = true -> pixel_box (object_bbox x) = true ->
     lf ∈ lfs -> returns (lf x)) /\
  (forall df L row j v,
     apply_lfs lfs df = Ok L -> row ∈ L -> row !! j = Some v ->
     exists c, polarity !! j = Some c /\ (v = ABSTAIN \/ v = c)).
Proof.
  split; [reflexivity |]. split; [| split].
  - repeat split.
    + exact lf_ride_object_unipolar.
    + exact lf_carry_object_unipolar.
    + exact lf_carry_subject_unipolar.
    + exact lf_not_person_unipolar.
    + exact lf_ydist_unipolar.
    + exact lf_dist_unipolar.
    + exact lf_area_unipolar.
  - intros x lf Hwf _ _ Hlf. apply lfs_return; assumption.
  - intros df L row j v HL Hrow Hv.
    destruct (apply_lfs_entry _ _ _ _ _ _ HL Hrow Hv) as (x & lf & _ & Hlf & Hx).
    destruct (lfs_polarity j lf Hlf) as (c & Hc & Huni).
    exists c. split; [exact Hc |]. exact (Huni x v Hx).
Qed.

Lemma labeling_functions_unipolar_witness :
  apply_lfs lfs [rider] = Ok [[RIDE; ABSTAIN; ABSTAIN; ABSTAIN; OTHER; OTHER; ABSTAIN]] /\
  (exists c, polarity !! 4%nat = Some c /\ (OTHER = ABSTAIN \/ OTHER = c)) /\
  returns (lf_area rider).
Proof.
  destruct labeling_functions_unipolar as (_ & _ & Hret & Hcol).
  split; [reflexivity |]. split.
  - apply (Hcol [rider] [[RIDE; ABSTAIN; ABSTAIN; ABSTAIN; OTHER; OTHER; ABSTAIN]]
                 [RIDE; ABSTAIN; ABSTAIN; ABSTAIN; OTHER; OTHER; ABSTAIN] 4%nat OTHER).
    + reflexivity.
    + left.
    + reflexivity.
  - apply (Hret rider lf_area); [reflexivity | reflexivity | reflexivity |].
    unfold lfs. do 6 right. left.
Defined.

(** ** The sweep trial *)

Lemma trial_Ok `{LabelModelAPI} (deps : list edge) (L_train L_dev : matrix)
    (Y_dev : list Z) (n_eps : Z) (lr : Q) (r : trial_result) :
  trial deps L_train L_dev Y_dev n_eps lr = Ok r ->
  fit (Informed_LabelModel deps 3 true) L_train 12345 lr
      (inject_Z n_eps / 10)%Q n_eps = Ok (tr_label_model r) /\
  predict_proba (tr_label_model r) L_dev = Ok (tr_probs_dev r) /\
  tr_preds_dev r = probs_to_preds (tr_probs_dev r) /\
  score_accuracy (tr_label_model r) L_dev Y_dev = Ok (tr_f1 r).
Proof.
  unfold trial. intros Hr.
  apply bind_Ok in Hr as (fitted & Hfit & Hr).
  apply bind_Ok in Hr as (probs & Hprobs & Hr).
  apply bind_Ok in Hr as (f1 & Hf1 & Hr).
  injection Hr as <-. simpl. auto.
Qed.

(** C6: in a sweep trial the gold vector reaches only the scoring call. The
    model is fitted from the edges, the training matrix, the fixed seed, the
    learning rate and the epoch count, so two trials that differ in the gold
    vector alone end with the same fitted model, the same probabilities and
    the same predictions, and a failure of [fit] is the trial's failure
    whatever the gold vector. *)
Theorem trial_fit_independent_of_gold `{LabelModelAPI}
    (deps : list edge) (L_train L_dev : matrix) (n_eps : Z) (lr : Q) :
  (forall Y1 Y2 r1 r2,
     trial deps L_train L_dev Y1 n_eps lr = Ok r1 ->
     trial deps L_train L_dev Y2 n_eps lr = Ok r2 ->
     tr_label_model r1 = tr_label_model r2 /\
     tr_probs_dev r1 = tr_probs_dev r2 /\
     tr_preds_dev r1 = tr_preds_dev r2) /\
  (forall Y r,
     trial deps L_train L_dev Y n_eps lr = Ok r ->
     fit (Informed_LabelModel deps 3 true) L_train 12345 lr
         (inject_Z n_eps / 10)%Q n_eps = Ok (tr_label_model r)) /\
  (forall e,
     fit (Informed_LabelModel deps 3 true) L_train 12345 lr
         (inject_Z n_eps / 10)%Q n_eps = Err e ->
     forall Y, trial deps L_train L_dev Y n_eps lr = Err e).
Proof.
  split; [| split].
  - intros Y1 Y2 r1 r2 H1 H2.
    apply trial_Ok in H1 as (Hfit1 & Hp1 & Hq1 & _).
    apply trial_Ok in H2 as (Hfit2 & Hp2 & Hq2 & _).
    assert (Hm : tr_label_model r1 = tr_label_model r2) by congruence.
    assert (Hp : tr_probs_dev r1 = tr_probs_dev r2).
    { rewrite Hm in Hp1. congruence. }
    split; [exact Hm |]. split; [exact Hp |]. congruence.
  - intros Y r Hr. apply trial_Ok in Hr as (Hfit & _). exact Hfit.
  - intros e Hfit Y. unfold trial. rewrite Hfit. reflexivity.
Qed.

Lemma trial_fit_independent_of_gold_witness :
  exists r1 r2,
    @trial counting_api [(0, 1)%nat] [[0; 0]; [1; -1]] [[0; -1]; [2; 2]]
           [0; 2] 50 (1 # 100) = Ok r1 /\
    @trial counting_api [(0, 1)%nat] [[0; 0]; [1; -1]] [[0; -1]; [2; 2]]
           [1; 1] 50 (1 # 100) = Ok r2 /\
    @tr_label_model counting_api r1 = @tr_label_model counting_api r2 /\
    @tr_f1 counting_api r1 <> @tr_f1 counting_api r2.
Proof.
  eexists. eexists.
  split; [reflexivity |]. split; [reflexivity |]. split.
  - eapply (@trial_fit_independent_of_gold counting_api
              [(0, 1)%nat] [[0; 0]; [1; -1]] [[0; -1]; [2; 2]] 50 (1 # 100));
      reflexivity.
  - simpl. discriminate.
Defined.

(** ** The dependency estimator *)

Section EstimatorProperties.
Import DependencyEstimator.

Lemma column_pairs_In (m i j : nat) :
  In (i, j) (column_pairs m) <-> (i < j < m)%nat.
Proof.
  unfold column_pairs. rewrite in_flat_map. split.
  - intros (i' & Hi' & Hij). apply in_map_iff in Hij as (j' & Heq & Hj').
    injection Heq as -> ->. apply in_seq in Hi', Hj'. lia.
  - intros [Hij Hjm]. exists i. split; [apply in_seq; lia |].
    apply in_map_iff. exists j. split; [reflexivity | apply in_seq; lia].
Qed.

Lemma pairs_from_NoDup (m : nat) (rows : list nat) :
  NoDup rows ->
  NoDup (flat_map (fun i => map (fun j => (i, j)) (seq (S i) (m - S i))) rows).
Proof.
  induction rows as [| i rows IH]; intros Hnd; simpl.
  - constructor.
  - apply NoDup_cons in Hnd as [Hi Hnd].
    apply NoDup_app. split; [| split].
    + apply NoDup_fmap_2; [intros a b [= ->]; reflexivity | apply NoDup_seq].
    + intros [a b] Hab Hrest.
      apply list_elem_of_In, in_map_iff in Hab as (j & [= <- <-] & _).
      apply list_elem_of_In, in_flat_map in Hrest as (i' & Hi' & Hij).
      apply in_map_iff in Hij as (j' & [= -> _] & _).
      apply Hi, list_elem_of_In, Hi'.
    + apply IH, Hnd.
Qed.

Lemma column_pairs_NoDup (m : nat) : NoDup (column_pairs m).
Proof. apply pairs_from_NoDup, NoDup_seq. Qed.

Lemma estimate_edges_Ok (S : statistics) (L : matrix) (Y : option (list Z))
    (k : Z) (t : Q) (p : policy) (E : list edge) :
  estimate_edges S L Y k t p = Ok E ->
  E = [] \/
  E = List.filter (fun e => exceeds (pair_statistic S p L Y k e.1 e.2) t)
                  (column_pairs (m_functions L)).
Proof.
  unfold estimate_edges. intros HE.
  destruct p;
    repeat match type of HE with
    | (if ?b then _ else _) = Ok _ => destruct b; try discriminate
    end;
    injection HE as <-; auto.
Qed.

Lemma exceeds_antitone (s t1 t2 : Q) :
  (t1 <= t2)%Q -> exceeds s t2 = true -> exceeds s t1 = true.
Proof.
  unfold exceeds. intros Ht H2.
  apply negb_true_iff in H2. apply negb_true_iff.
  destruct (Qle_bool (Qabs s) t1) eqn:H1; [| reflexivity].
  apply Qle_bool_iff in H1.
  assert (Hle : Qle_bool (Qabs s) t2 = true).
  { apply Qle_bool_iff. eapply Qle_trans; eauto. }
  congruence.
Qed.

Lemma filter_length_mono {A : Type} (f g : A -> bool) (l : list A) :
  (forall a, f a = true -> g a = true) ->
  (length (List.filter f l) <= length (List.filter g l))%nat.
Proof.
  intros Hfg. induction l as [| a l IH]; simpl; [lia |].
  destruct (f a) eqn:Hf.
  - rewrite (Hfg a Hf). simpl. lia.
  - destruct (g a); simpl; lia.
Qed.

Lemma filter_NoDup {A : Type} (f : A -> bool) (l : list A) :
  NoDup l -> NoDup (List.filter f l).
Proof.
  induction 1 as [| a l Ha Hl IH]; simpl; [constructor |].
  destruct (f a); [| exact IH].
  constructor; [| exact IH].
  intros Hin. apply Ha.
  apply list_elem_of_In, filter_In in Hin as [Hin _].
  apply list_elem_of_In. exact Hin.
Qed.

(** C4: when [estimate_edges] succeeds on a label matrix with at least two
    columns, no returned edge is a self-pair, both indices of every edge are
    below the column count, no edge is listed twice, and no edge is listed
    in both orders. *)
Theorem estimate_edges_simple_graph (S : statistics) (L : matrix)
    (Y : option (list Z)) (k : Z) (t : Q) (p : policy) (E : list edge) :
  (2 <= m_functions L)%nat ->
  estimate_edges S L Y k t p = Ok E ->
  (forall i j, (i, j) ∈ E ->
     i <> j /\ (i < m_functions L)%nat /\ (j < m_functions L)%nat) /\
  NoDup E /\
  (forall i j, (i, j) ∈ E -> (j, i) ∉ E).
Proof.
  intros _ HE.
  assert (Hsub : forall i j, (i, j) ∈ E -> (i < j < m_functions L)%nat).
  { intros i j Hij.
    destruct (estimate_edges_Ok _ _ _ _ _ _ _ HE) as [-> | ->].
    - apply elem_of_nil in Hij. contradiction.
    - apply list_elem_of_In, filter_In in Hij as [Hij _].
      apply column_pairs_In. exact Hij. }
  split; [| split].
  - intros i j Hij. apply Hsub in Hij. lia.
  - destruct (estimate_edges_Ok _ _ _ _ _ _ _ HE) as [-> | ->].
    + constructor.
    + apply filter_NoDup, column_pairs_NoDup.
  - intros i j Hij Hji. apply Hsub in Hij, Hji. lia.
Qed.

Lemma estimate_edges_simple_graph_witness :
  estimate_edges covariance_statistics
    [[0; 0; 2]; [2; 2; 2]; [0; 0; -1]; [2; 2; -1]] None 3 (1 # 10)
    CovarianceBased = Ok [(0, 1)%nat] /\
  NoDup [(0, 1)%nat] /\ (1, 0)%nat ∉ [(0, 1)%nat].
Proof.
  split; [reflexivity |].
  destruct (estimate_edges_simple_graph covariance_statistics
              [[0; 0; 2]; [2; 2; 2]; [0; 0; -1]; [2; 2; -1]] None 3 (1 # 10)
              CovarianceBased [(0, 1)%nat]) as (_ & Hnd & Hsym).
  - simpl. lia.
  - reflexivity.
  - split; [exact Hnd |]. apply Hsym. left.
Defined.

(** C2: for the covariance-based policy on a fixed label matrix, with the
    gold vector and the cardinality fixed, raising the threshold from [t1]
    to [t2] returns a sub-collection of the edges: every edge found at [t2]
    is found at [t1], and there are no more of them. *)
Theorem estimate_edges_antitone (S : statistics) (L : matrix)
    (Y : option (list Z)) (k : Z) (t1 t2 : Q) (E1 E2 : list edge) :
  (t1 <= t2)%Q ->
  estimate_edges S L Y k t1 CovarianceBased = Ok E1 ->
  estimate_edges S L Y k t2 CovarianceBased = Ok E2 ->
  (length E2 <= length E1)%nat /\ (forall e, e ∈ E2 -> e ∈ E1).
Proof.
  intros Ht H1 H2. unfold estimate_edges in H1, H2.
  repeat match type of H1 with
  | (if ?b then _ else _) = Ok _ => destruct b; try discriminate
  end.
  repeat match type of H2 with
  | (if ?b then _ else _) = Ok _ => destruct b; try discriminate
  end.
  injection H1 as <-. injection H2 as <-.
  split.
  - apply filter_length_mono. intros e. apply exceeds_antitone, Ht.
  - intros e He. apply list_elem_of_In, filter_In in He as [Hin Hex].
    apply list_elem_of_In, filter_In. split; [exact Hin |].
    eapply exceeds_antitone; eauto.
Qed.

Lemma estimate_edges_antitone_witness :
  estimate_edges covariance_statistics
    [[0; 0; 2]; [2; 2; 2]; [0; 0; -1]; [2; 2; -1]] None 3 (1 # 10)
    CovarianceBased = Ok [(0, 1)%nat] /\
  estimate_edges covariance_statistics
    [[0; 0; 2]; [2; 2; 2]; [0; 0; -1]; [2; 2; -1]] None 3 (3 # 2)
    CovarianceBased = Ok [] /\
  (length (@nil edge) <= length [(0, 1)%nat])%nat.
Proof.
  split; [reflexivity |]. split; [reflexivity |].
  apply (estimate_edges_antitone covariance_statistics
           [[0; 0; 2]; [2; 2; 2]; [0; 0; -1]; [2; 2; -1]] None 3
           (1 # 10) (3 # 2) [(0, 1)%nat] []).
  - unfold Qle. simpl. lia.
  - reflexivity.
  - reflexivity.
Defined.

End EstimatorProperties.

(** ** The generative label model *)

Section LabelModelProperties.
Import GenerativeLabelModel.
Context {N : numerics}.

Lemma fit_Fitted (m m' : model N) (L : matrix) (edges : list edge) (seed : Z)
    (lr : Q) (n : nat) (lf : Q) :
  GenerativeLabelModel.fit m L edges seed lr n lf = Ok m' ->
  exists theta, phase m' = Fitted (DependencyEstimator.m_functions L) theta.
Proof.
  unfold GenerativeLabelModel.fit. intros Hfit.
  destruct (is_finite N _); [| discriminate].
  injection Hfit as <-. simpl. eauto.
Qed.

Lemma after_no_fit (m : model N) (c : call) :
  fit_succeeds m c = false -> after m c = m.
Proof.
  destruct c as [L e s lr n lf | L | L Y metric]; simpl; auto.
  destruct (GenerativeLabelModel.fit m L e s lr n lf); [discriminate | auto].
Qed.

Lemma after_all_no_fit (cs : list call) (m : model N) :
  successful_fits m cs = 0%nat -> after_all m cs = m.
Proof.
  unfold after_all. revert m.
  induction cs as [| c cs IH]; intros m Hcs; simpl in *; [reflexivity |].
  destruct (fit_succeeds m c) eqn:Hc; [discriminate |].
  rewrite (after_no_fit m c Hc) in *. apply IH. exact Hcs.
Qed.

Lemma fitted_predicts (m m' : model N) (L : matrix) (edges : list edge)
    (seed : Z) (lr : Q) (n : nat) (lf : Q) :
  GenerativeLabelModel.fit m L edges seed lr n lf = Ok m' ->
  returns (GenerativeLabelModel.predict_proba m' L).
Proof.
  intros Hfit. destruct (fit_Fitted _ _ _ _ _ _ _ _ Hfit) as [theta Hph].
  unfold GenerativeLabelModel.predict_proba, returns.
  rewrite Hph, Nat.eqb_refl. eauto.
Qed.

(** C7: on an instance on which no call to [fit] has succeeded so far,
    whatever calls were made, [predict_proba] and [score] fail with
    ModelNotFittedError. *)
Theorem unfitted_model_raises (card : nat) (cs : list call) (L : matrix)
    (Y : list Z) (metric : string) :
  successful_fits (new_model N card) cs = 0%nat ->
  GenerativeLabelModel.predict_proba (after_all (new_model N card) cs) L
    = Err ModelNotFittedError /\
  score (after_all (new_model N card) cs) L Y metric
    = Err ModelNotFittedError.
Proof.
  intros Hcs. rewrite (after_all_no_fit cs _ Hcs). split; reflexivity.
Qed.

End LabelModelProperties.

Lemma unfitted_model_raises_witness :
  GenerativeLabelModel.predict_proba
    (GenerativeLabelModel.after_all
       (GenerativeLabelModel.new_model GenerativeLabelModel.scalar_numerics 3)
       [GenerativeLabelModel.CallScore [[0; -1]] [0] "accuracy";
        GenerativeLabelModel.CallFit [[0; -1]] [] 12345 (1 # 100) 5 (1 # 2)])
    [[0; -1]] = Err ModelNotFittedError /\
  returns
    (GenerativeLabelModel.predict_proba
       (GenerativeLabelModel.after_all
          (GenerativeLabelModel.new_model GenerativeLabelModel.scalar_numerics 3)
          [GenerativeLabelModel.CallFit [[0; -1]] [] 1 (1 # 100) 5 (1 # 2)])
       [[0; -1]]).
Proof.
  split.
  - apply (@unfitted_model_raises GenerativeLabelModel.scalar_numerics 3
             [GenerativeLabelModel.CallScore [[0; -1]] [0] "accuracy";
              GenerativeLabelModel.CallFit [[0; -1]] [] 12345 (1 # 100) 5 (1 # 2)]
             [[0; -1]] [0] "accuracy").
    reflexivity.
  - eexists. vm_compute. reflexivity.
Defined.

(** * Further properties of the notebook's code *)

(** ** The size-based labeling function *)

Lemma truediv_half (a b : Z) :
  b <> 0 ->
  exists r, truediv a b = Ok r /\
            Qle_bool r (1 # 2) = (2 * a * b <=? b * b).
Proof.
  intros Hb. unfold truediv.
  destruct (Z.eqb_spec b 0) as [Hz | _]; [contradiction |].
  eexists. split; [reflexivity |].
  apply eq_true_iff_eq. rewrite Qle_bool_iff, Z.leb_le.
  unfold Qle, Qdiv, Qmult, Qinv, inject_Z. simpl.
  destruct b as [| p | p]; [contradiction | |]; simpl; nia.
Qed.

Lemma lf_area_value (x : Example) (sy0 sy1 sx0 sx1 oy0 oy1 ox0 ox1 : Z) :
  subject_bbox x = [sy0; sy1; sx0; sx1] ->
  object_bbox x = [oy0; oy1; ox0; ox1] ->
  (oy1 - oy0) * (ox1 - ox0) <> 0 ->
  lf_area x =
    Ok (if 2 * ((sy1 - sy0) * (sx1 - sx0)) * ((oy1 - oy0) * (ox1 - ox0))
           <=? (oy1 - oy0) * (ox1 - ox0) * ((oy1 - oy0) * (ox1 - ox0))
        then OTHER else ABSTAIN).
Proof.
  intros Hs Ho Hnz. rewrite (lf_area_four x _ _ _ _ _ _ _ _ Hs Ho).
  destruct (truediv_half ((sy1 - sy0) * (sx1 - sx0)) _ Hnz) as (r & Hr & Hle).
  rewrite Hr. simpl. rewrite Hle. destruct (_ <=? _); reflexivity.
Qed.

(** X1: on four-coordinate boxes of image coordinates [lf_area] votes by
    comparing twice the subject's area with the object's: with a positive
    object area it returns OTHER exactly when
    [2 * area(subject) <= area(object)] and ABSTAIN otherwise; with a
    negative object area (a box given with a maximum below its minimum) the
    comparison is reversed. *)
Theorem lf_area_half_rule (x : Example) (sy0 sy1 sx0 sx1 oy0 oy1 ox0 ox1 : Z) :
  subject_bbox x = [sy0; sy1; sx0; sx1] ->
  object_bbox x = [oy0; oy1; ox0; ox1] ->
  pixel_box (subject_bbox x) = true ->
  pixel_box (object_bbox x) = true ->
  (0 < (oy1 - oy0) * (ox1 - ox0) ->
     (lf_area x = Ok OTHER <->
        2 * ((sy1 - sy0) * (sx1 - sx0)) <= (oy1 - oy0) * (ox1 - ox0)) /\
     (lf_area x = Ok ABSTAIN <->
        (oy1 - oy0) * (ox1 - ox0) < 2 * ((sy1 - sy0) * (sx1 - sx0)))) /\
  ((oy1 - oy0) * (ox1 - ox0) < 0 ->
     (lf_area x = Ok OTHER <->
        (oy1 - oy0) * (ox1 - ox0) <= 2 * ((sy1 - sy0) * (sx1 - sx0))) /\
     (lf_area x = Ok ABSTAIN <->
        2 * ((sy1 - sy0) * (sx1 - sx0)) < (oy1 - oy0) * (ox1 - ox0))).
Proof.
  intros Hs Ho _ _.
  set (sa := (sy1 - sy0) * (sx1 - sx0)).
  set (oa := (oy1 - oy0) * (ox1 - ox0)).
  assert (Hv : oa <> 0 ->
               lf_area x = Ok (if 2 * sa * oa <=? oa * oa then OTHER else ABSTAIN)).
  { intros Hnz. apply (lf_area_value x _ _ _ _ _ _ _ _ Hs Ho Hnz). }
  split; intros Hoa; (rewrite Hv by lia);
    destruct (Z.leb_spec (2 * sa * oa) (oa * oa)) as [Hle | Hgt];
    (split; split; intros H; try discriminate H; try reflexivity; try nia).
Qed.

Lemma lf_area_half_rule_witness :
  lf_area carried_bag = Ok ABSTAIN /\
  (lf_area carried_bag = Ok OTHER <-> 2 * ((400 - 50) * (300 - 100)) <= (320 - 200) * (240 - 150)).
Proof.
  destruct (lf_area_half_rule carried_bag 50 400 100 300 200 320 150 240)
    as [Hpos _]; [reflexivity | reflexivity | reflexivity | reflexivity |].
  destruct Hpos as [Hother Habs]; [lia |].
  split; [apply Habs; lia | exact Hother].
Defined.

Lemma area_affine (k dy dx y0 y1 x0 x1 : Z) :
  area [k * y0 + dy; k * y1 + dy; k * x0 + dx; k * x1 + dx]
  = Ok (k * k * ((y1 - y0) * (x1 - x0))).
Proof. rewrite area_four. f_equal. ring. Qed.

(** X2: [lf_area] does not change when the image is resized and shifted:
    scaling every coordinate of both boxes by the same non-zero factor and
    translating both boxes by the same offsets leaves the result (the vote,
    or the ZeroDivisionError of a flat object box) as it was. *)
Theorem lf_area_scale_shift_invariant (x x' : Example) (k dy dx : Z)
    (sy0 sy1 sx0 sx1 oy0 oy1 ox0 ox1 : Z) :
  k <> 0 ->
  subject_bbox x = [sy0; sy1; sx0; sx1] ->
  object_bbox x = [oy0; oy1; ox0; ox1] ->
  subject_bbox x' =
    [k * sy0 + dy; k * sy1 + dy; k * sx0 + dx; k * sx1 + dx] ->
  object_bbox x' =
    [k * oy0 + dy; k * oy1 + dy; k * ox0 + dx; k * ox1 + dx] ->
  lf_area x' = lf_area x.
Proof.
  intros Hk Hs Ho Hs' Ho'.
  set (sa := (sy1 - sy0) * (sx1 - sx0)).
  set (oa := (oy1 - oy0) * (ox1 - ox0)).
  assert (Hx : lf_area x =
               (r ← truediv sa oa;
                if Qle_bool r (1 # 2) then Ok OTHER else Ok ABSTAIN)).
  { apply (lf_area_four x _ _ _ _ _ _ _ _ Hs Ho). }
  assert (Hx' : lf_area x' =
                (r ← truediv (k * k * sa) (k * k * oa);
                 if Qle_bool r (1 # 2) then Ok OTHER else Ok ABSTAIN)).
  { unfold lf_area. rewrite Hs', Ho', !area_affine. reflexivity. }
  rewrite Hx, Hx'.
  destruct (Z.eq_dec oa 0) as [Hz | Hnz].
  - rewrite Hz, Z.mul_0_r. reflexivity.
  - assert (Hkk : 0 < k * k) by nia.
    assert (Hnz' : k * k * oa <> 0) by nia.
    destruct (truediv_half sa oa Hnz) as (r & Hr & Hle).
    destruct (truediv_half (k * k * sa) (k * k * oa) Hnz') as (r' & Hr' & Hle').
    rewrite Hr, Hr'. simpl. rewrite Hle, Hle'.
    replace (2 * (k * k * sa) * (k * k * oa) <=? k * k * oa * (k * k * oa))
      with (2 * sa * oa <=? oa * oa); [reflexivity |].
    apply eq_true_iff_eq. rewrite !Z.leb_le.
    replace (2 * (k * k * sa) * (k * k * oa))
      with ((k * k * (k * k)) * (2 * sa * oa)) by ring.
    replace (k * k * oa * (k * k * oa))
      with ((k * k * (k * k)) * (oa * oa)) by ring.
    split; intros H.
    + apply Z.mul_le_mono_nonneg_l; [nia | exact H].
    + apply Z.mul_le_mono_pos_l in H; [exact H | nia].
Qed.

Lemma lf_area_scale_shift_invariant_witness :
  lf_area
    {| label := 0; object_bbox := [250; 610; 85; 525];
       object_category := "horse"; source_img := "rider.jpg";
       subject_bbox := [70; 510; 165; 405]; subject_category := "person" |}
  = lf_area rider.
Proof.
  apply (lf_area_scale_shift_invariant rider _ 2 10 5 30 250 80 200 120 300 40 260);
    [discriminate | reflexivity | reflexivity | reflexivity | reflexivity].
Defined.

(** ** The distance-based labeling function *)

Lemma sum_sq_zip_sub_sym (a b : list Z) :
  sum_sq (zip_with Z.sub a b) = sum_sq (zip_with Z.sub b a).
Proof.
  revert b. induction a as [| a0 a IH]; intros [| b0 b]; simpl; try reflexivity.
  rewrite IH. ring.
Qed.

Lemma sum_sq_broadcast_sym (c : Z) (l : list Z) :
  sum_sq (map (fun v => c - v) l) = sum_sq (map (fun v => v - c) l).
Proof.
  induction l as [| v l IH]; simpl; [reflexivity |]. rewrite IH. ring.
Qed.

Lemma np_sub_sym (a b : list Z) :
  match np_sub a b, np_sub b a with
  | Ok d, Ok d' => sum_sq d = sum_sq d'
  | Err e, Err e' => e = e'
  | _, _ => False
  end.
Proof.
  unfold np_sub. rewrite (Nat.eqb_sym (length b) (length a)).
  destruct (length a =? length b)%nat eqn:Hlen.
  - apply sum_sq_zip_sub_sym.
  - destruct a as [| a0 [| a1 a]], b as [| b0 [| b1 b]];
      simpl in *; try discriminate; try reflexivity;
      try (f_equal; ring);
      try (rewrite (sum_sq_broadcast_sym _ b); f_equal; ring);
      try (rewrite (sum_sq_broadcast_sym _ a); f_equal; ring).
Qed.

(** X3: on boxes of image coordinates [lf_dist] is symmetric in the two
    boxes: exchanging the subject's and the object's bounding box gives the
    same vote, and the same ValueError when the arrays cannot be
    subtracted. *)
Theorem lf_dist_symmetric (x x' : Example) :
  pixel_box (subject_bbox x) = true ->
  pixel_box (object_bbox x) = true ->
  subject_bbox x' = object_bbox x ->
  object_bbox x' = subject_bbox x ->
  lf_dist x' = lf_dist x.
Proof.
  intros _ _ Hs Ho. unfold lf_dist. rewrite Hs, Ho.
  pose proof (np_sub_sym (subject_bbox x) (object_bbox x)) as Hsym.
  destruct (np_sub (subject_bbox x) (object_bbox x)) as [d | e],
           (np_sub (object_bbox x) (subject_bbox x)) as [d' | e'];
    simpl; try contradiction.
  - unfold norm_le. rewrite Hsym. reflexivity.
  - rewrite Hsym. reflexivity.
Qed.

Lemma lf_dist_symmetric_witness :
  lf_dist
    {| label := 0; object_bbox := [30; 250; 80; 200];
       object_category := "person"; source_img := "rider.jpg";
       subject_bbox := [120; 300; 40; 260]; subject_category := "horse" |}
  = lf_dist rider.
Proof.
  apply (lf_dist_symmetric rider); reflexivity.
Defined.

(** X4: on four-coordinate boxes of image coordinates [lf_dist] never
    abstains when every coordinate of the subject is within 500 of the
    object's, and always abstains when some coordinate is more than 1000
    away. *)
Theorem lf_dist_near_far (x : Example) (s0 s1 s2 s3 o0 o1 o2 o3 : Z) :
  subject_bbox x = [s0; s1; s2; s3] ->
  object_bbox x = [o0; o1; o2; o3] ->
  pixel_box (subject_bbox x) = true ->
  pixel_box (object_bbox x) = true ->
  (Z.abs (s0 - o0) <= 500 /\ Z.abs (s1 - o1) <= 500 /\
   Z.abs (s2 - o2) <= 500 /\ Z.abs (s3 - o3) <= 500 ->
   lf_dist x = Ok OTHER) /\
  (1000 < Z.abs (s0 - o0) \/ 1000 < Z.abs (s1 - o1) \/
   1000 < Z.abs (s2 - o2) \/ 1000 < Z.abs (s3 - o3) ->
   lf_dist x = Ok ABSTAIN).
Proof.
  intros Hs Ho _ _.
  assert (Hd : lf_dist x =
               if (s0 - o0) * (s0 - o0) + ((s1 - o1) * (s1 - o1)
                   + ((s2 - o2) * (s2 - o2) + ((s3 - o3) * (s3 - o3) + 0)))
                  <=? 1000 * 1000
               then Ok OTHER else Ok ABSTAIN).
  { unfold lf_dist. rewrite Hs, Ho. reflexivity. }
  rewrite Hd. split.
  - intros (H0 & H1 & H2 & H3).
    destruct (Z.leb_spec
                ((s0 - o0) * (s0 - o0) + ((s1 - o1) * (s1 - o1)
                 + ((s2 - o2) * (s2 - o2) + ((s3 - o3) * (s3 - o3) + 0))))
                (1000 * 1000)) as [_ | Hgt]; [reflexivity |].
    assert ((s0 - o0) * (s0 - o0) <= 250000) by nia.
    assert ((s1 - o1) * (s1 - o1) <= 250000) by nia.
    assert ((s2 - o2) * (s2 - o2) <= 250000) by nia.
    assert ((s3 - o3) * (s3 - o3) <= 250000) by nia.
    lia.
  - intros Hfar.
    destruct (Z.leb_spec
                ((s0 - o0) * (s0 - o0) + ((s1 - o1) * (s1 - o1)
                 + ((s2 - o2) * (s2 - o2) + ((s3 - o3) * (s3 - o3) + 0))))
                (1000 * 1000)) as [Hle | _]; [| reflexivity].
    assert (0 <= (s0 - o0) * (s0 - o0)) by nia.
    assert (0 <= (s1 - o1) * (s1 - o1)) by nia.
    assert (0 <= (s2 - o2) * (s2 - o2)) by nia.
    assert (0 <= (s3 - o3) * (s3 - o3)) by nia.
    destruct Hfar as [H' | [H' | [H' | H']]]; exfalso; nia.
Qed.

Lemma lf_dist_near_far_witness :
  lf_dist rider = Ok OTHER /\
  lf_dist
    {| label := 2; object_bbox := [0; 40; 1500; 1600];
       object_category := "sky"; source_img := "wide.jpg";
       subject_bbox := [0; 40; 10; 90]; subject_category := "car" |}
  = Ok ABSTAIN.
Proof.
  split.
  - apply (lf_dist_near_far rider 30 250 80 200 120 300 40 260);
      [reflexivity | reflexivity | reflexivity | reflexivity | lia].
  - eapply (lf_dist_near_far _ 0 40 10 90 0 40 1500 1600);
      [reflexivity | reflexivity | reflexivity | reflexivity | lia].
Defined.

Lemma np_sub_returns (a b : list Z) :
  returns (np_sub a b) <->
  length a = length b \/ length a = 1%nat \/ length b = 1%nat.
Proof.
  unfold np_sub, returns.
  destruct (Nat.eqb_spec (length a) (length b)) as [Heq | Hne].
  - split; [auto | eauto].
  - destruct a as [| a0 [| a1 a]], b as [| b0 [| b1 b]]; simpl in *;
      split; intros H; eauto;
      try (destruct H as [? H]; discriminate H);
      try (destruct H as [H | [H | H]]; try discriminate H; congruence).
Qed.

Lemma np_sub_Err (a b : list Z) (e : exn) :
  np_sub a b = Err e -> e = ValueError.
Proof.
  unfold np_sub. destruct (length a =? length b)%nat; [discriminate |].
  destruct a as [| a0 [| a1 a]], b as [| b0 [| b1 b]]; congruence.
Qed.

Lemma lf_dist_returns (x : Example) :
  returns (lf_dist x) <->
  length (subject_bbox x) = length (object_bbox x) \/
  length (subject_bbox x) = 1%nat \/ length (object_bbox x) = 1%nat.
Proof.
  rewrite <- np_sub_returns. unfold lf_dist, returns.
  destruct (np_sub (subject_bbox x) (object_bbox x)) as [d | e]; simpl.
  - split; [eauto |]. intros _. destruct (norm_le d 1000); eauto.
  - split; intros [v Hv]; discriminate.
Qed.

Lemma lf_dist_Err (x : Example) (e : exn) :
  lf_dist x = Err e -> e = ValueError.
Proof.
  unfold lf_dist.
  destruct (np_sub (subject_bbox x) (object_bbox x)) as [d | e'] eqn:Hsub;
    simpl.
  - destruct (norm_le d 1000); discriminate.
  - intros [= <-]. apply (np_sub_Err _ _ _ Hsub).
Qed.

(** X5: on boxes of image coordinates [lf_dist] returns a vote exactly when
    the two boxes have the same number of coordinates or one of them has a
    single coordinate (which numpy broadcasts); for any other pair of
    lengths it raises ValueError, and it raises nothing else. *)
Theorem lf_dist_defined (x : Example) :
  pixel_box (subject_bbox x) = true ->
  pixel_box (object_bbox x) = true ->
  (returns (lf_dist x) <->
     length (subject_bbox x) = length (object_bbox x) \/
     length (subject_bbox x) = 1%nat \/ length (object_bbox x) = 1%nat) /\
  (forall e, lf_dist x = Err e -> e = ValueError) /\
  (lf_dist x = Err ValueError <-> ~ returns (lf_dist x)).
Proof.
  intros _ _.
  split; [apply lf_dist_returns |].
  split; [apply lf_dist_Err |].
  split.
  - intros Hv [v Hok]. congruence.
  - intros Hno. destruct (lf_dist x) as [v | e] eqn:Hlf.
    + exfalso. apply Hno. exists v. reflexivity.
    + rewrite (lf_dist_Err x e Hlf). reflexivity.
Qed.

Lemma lf_dist_defined_witness :
  lf_dist
    {| label := 2; object_bbox := [0; 40; 15];
       object_category := "sky"; source_img := "cut.jpg";
       subject_bbox := [0; 40; 10; 90]; subject_category := "car" |}
  = Err ValueError.
Proof.
  match goal with |- lf_dist ?x = _ =>
    destruct (lf_dist_defined x) as (Hret & _ & Herr);
      [reflexivity | reflexivity |]
  end.
  apply Herr. intros Hr. apply Hret in Hr. simpl in Hr. lia.
Defined.

(** ** The area of a box *)

Lemma area_returns (bbox : list Z) :
  returns (area bbox) <-> (4 <= length bbox)%nat.
Proof.
  unfold returns.
  destruct bbox as [| y0 [| y1 [| x0 [| x1 rest]]]]; simpl;
    try (split; [intros [a Ha]; discriminate Ha | lia]).
  split; [lia | eauto].
Qed.

Lemma area_Err (bbox : list Z) (e : exn) :
  area bbox = Err e -> e = IndexError /\ (length bbox < 4)%nat.
Proof.
  destruct bbox as [| y0 [| y1 [| x0 [| x1 rest]]]]; simpl;
    intros H; try discriminate H; injection H as <-; split; (reflexivity || lia).
Qed.

(** X6: [area] returns exactly on lists with at least four entries and
    raises IndexError on shorter ones; it reads the first four entries only,
    is unchanged when the box is translated, and is non-negative on a box
    whose minima do not exceed its maxima. *)
Theorem area_defined_and_invariant :
  (forall bbox, returns (area bbox) <-> (4 <= length bbox)%nat) /\
  (forall bbox, (length bbox < 4)%nat <-> area bbox = Err IndexError) /\
  (forall y0 y1 x0 x1 rest,
     area (y0 :: y1 :: x0 :: x1 :: rest) = Ok ((y1 - y0) * (x1 - x0))) /\
  (forall y0 y1 x0 x1 dy dx,
     area [y0 + dy; y1 + dy; x0 + dx; x1 + dx] = area [y0; y1; x0; x1]) /\
  (forall y0 y1 x0 x1 a,
     y0 <= y1 -> x0 <= x1 -> area [y0; y1; x0; x1] = Ok a -> 0 <= a).
Proof.
  split; [exact area_returns |]. split; [| split; [| split]].
  - intros bbox. split.
    + intros Hlt. destruct (area bbox) as [a | e] eqn:Ha.
      * assert (Hr : returns (area bbox)) by (exists a; exact Ha).
        apply area_returns in Hr. lia.
      * apply area_Err in Ha as [-> _]. reflexivity.
    + intros Herr. apply area_Err in Herr as [_ Hlt]. exact Hlt.
  - reflexivity.
  - intros y0 y1 x0 x1 dy dx. rewrite !area_four. f_equal. ring.
  - intros y0 y1 x0 x1 a Hy Hx Ha. rewrite area_four in Ha.
    injection Ha as <-. nia.
Qed.

(** ** Agreement and conflict among the category-based functions *)

Ltac string_cases :=
  repeat match goal with
  | |- context [String.eqb ?a ?b] =>
      destruct (String.eqb_spec a b); subst; simpl; try discriminate
  | H : context [String.eqb ?a ?b] |- _ =>
      destruct (String.eqb_spec a b); subst; simpl in H; try discriminate
  end.

Lemma lf_ride_object_votes (x : Example) :
  lf_ride_object x = Ok RIDE ->
  subject_category x = "person" /\
  str_in (object_category x)
    ["bike"; "snowboard"; "motorcycle"; "horse"; "bus"; "truck"; "elephant"]
  = true.
Proof.
  unfold lf_ride_object.
  destruct (String.eqb_spec (subject_category x) "person"); [| discriminate].
  destruct (str_in _ _); [auto | discriminate].
Qed.

Lemma lf_carry_object_votes (x : Example) :
  lf_carry_object x = Ok CARRY ->
  subject_category x = "person" /\
  str_in (object_category x) ["bag"; "surfboard"; "skis"] = true.
Proof.
  unfold lf_carry_object.
  destruct (String.eqb_spec (subject_category x) "person"); [| discriminate].
  destruct (str_in _ _); [auto | discriminate].
Qed.

Lemma lf_carry_subject_votes (x : Example) :
  lf_carry_subject x = Ok CARRY ->
  object_category x = "person" /\
  str_in (subject_category x)
    ["chair"; "bike"; "snowboard"; "motorcycle"; "horse"] = true.
Proof.
  unfold lf_carry_subject.
  destruct (String.eqb_spec (object_category x) "person"); [| discriminate].
  destruct (str_in _ _); [auto | discriminate].
Qed.

Lemma ride_vote_excludes (x : Example) :
  lf_ride_object x = Ok RIDE ->
  lf_carry_object x = Ok ABSTAIN /\ lf_carry_subject x = Ok ABSTAIN /\
  lf_not_person x = Ok ABSTAIN.
Proof.
  intros Hv. apply lf_ride_object_votes in Hv as [Hs Ho].
  unfold lf_carry_object, lf_carry_subject, lf_not_person, str_in in *.
  destruct x as [l ob oc si sb sc]; simpl in *. subst sc. simpl.
  string_cases; auto.
Qed.

Lemma carry_object_vote_excludes (x : Example) :
  lf_carry_object x = Ok CARRY ->
  lf_ride_object x = Ok ABSTAIN /\ lf_carry_subject x = Ok ABSTAIN /\
  lf_not_person x = Ok ABSTAIN.
Proof.
  intros Hv. apply lf_carry_object_votes in Hv as [Hs Ho].
  unfold lf_ride_object, lf_carry_subject, lf_not_person, str_in in *.
  destruct x as [l ob oc si sb sc]; simpl in *. subst sc. simpl.
  string_cases; auto.
Qed.

Lemma carry_subject_vote_conflicts (x : Example) :
  lf_carry_subject x = Ok CARRY ->
  lf_ride_object x = Ok ABSTAIN /\ lf_carry_object x = Ok ABSTAIN /\
  lf_not_person x = Ok OTHER.
Proof.
  intros Hv. apply lf_carry_subject_votes in Hv as [Ho Hs].
  unfold lf_ride_object, lf_carry_object, lf_not_person, str_in in *.
  destruct x as [l ob oc si sb sc]; simpl in *. subst oc. simpl.
  string_cases; auto.
Qed.

(** X7: at most one of [lf_ride_object], [lf_carry_object] and
    [lf_carry_subject] votes on an example. When one of the first two votes,
    [lf_not_person] abstains; when [lf_carry_subject] votes CARRY,
    [lf_not_person] votes OTHER, so these two always disagree. *)
Theorem category_votes_exclusive (x : Example) :
  (lf_ride_object x = Ok RIDE ->
     lf_carry_object x = Ok ABSTAIN /\ lf_carry_subject x = Ok ABSTAIN /\
     lf_not_person x = Ok ABSTAIN) /\
  (lf_carry_object x = Ok CARRY ->
     lf_ride_object x = Ok ABSTAIN /\ lf_carry_subject x = Ok ABSTAIN /\
     lf_not_person x = Ok ABSTAIN) /\
  (lf_carry_subject x = Ok CARRY ->
     lf_ride_object x = Ok ABSTAIN /\ lf_carry_object x = Ok ABSTAIN /\
     lf_not_person x = Ok OTHER).
Proof.
  split; [apply ride_vote_excludes |].
  split; [apply carry_object_vote_excludes | apply carry_subject_vote_conflicts].
Qed.

Lemma category_votes_exclusive_witness :
  lf_carry_object rider = Ok ABSTAIN /\ lf_not_person rider = Ok ABSTAIN /\
  lf_ride_object carried_bag = Ok ABSTAIN.
Proof.
  destruct (category_votes_exclusive rider) as (Hride & _ & _).
  destruct (category_votes_exclusive carried_bag) as (_ & Hcarry & _).
  destruct Hride as (H1 & _ & H2); [reflexivity |].
  destruct Hcarry as (H3 & _ & _); [reflexivity |].
  auto.
Defined.

(** ** The x-maximum comparison under exchange of the boxes *)

(** X8: exchanging the subject's and the object's box never makes
    [lf_ydist] vote OTHER both ways: a vote in one order is an abstention in
    the other, and it abstains in both orders exactly when the two x-maximum
    coordinates are equal. *)
Theorem lf_ydist_exchange (x x' : Example) (s o : Z) :
  subject_bbox x !! XMAX = Some s ->
  object_bbox x !! XMAX = Some o ->
  subject_bbox x' = object_bbox x ->
  object_bbox x' = subject_bbox x ->
  (lf_ydist x = Ok OTHER -> lf_ydist x' = Ok ABSTAIN) /\
  (lf_ydist x = Ok ABSTAIN /\ lf_ydist x' = Ok ABSTAIN <-> s = o).
Proof.
  intros Hs Ho Hs' Ho'.
  rewrite (lf_ydist_lookup x s o Hs Ho).
  rewrite (lf_ydist_lookup x' o s); [| rewrite Hs'; exact Ho | rewrite Ho'; exact Hs].
  destruct (Z.ltb_spec s o), (Z.ltb_spec o s); split;
    try (intros; reflexivity); try lia;
    try (split; [intros [H1 H2]; (discriminate H1 || discriminate H2 || lia)
                | intros; (lia || auto)]).
  intros H1. discriminate H1.
Qed.

Lemma lf_ydist_exchange_witness :
  lf_ydist
    {| label := 0; object_bbox := [30; 250; 80; 200];
       object_category := "person"; source_img := "rider.jpg";
       subject_bbox := [120; 300; 40; 260]; subject_category := "horse" |}
  = Ok ABSTAIN.
Proof.
  match goal with |- lf_ydist ?x' = _ =>
    destruct (lf_ydist_exchange rider x' 200 260) as [Hvote _];
      [reflexivity | reflexivity | reflexivity | reflexivity |]
  end.
  apply Hvote. reflexivity.
Defined.

(** ** Where the seven labeling functions return *)

Lemma lf_ydist_returns (x : Example) :
  returns (lf_ydist x) <->
  (4 <= length (subject_bbox x))%nat /\ (4 <= length (object_bbox x))%nat.
Proof.
  unfold returns. split.
  - intros [v Hv].
    destruct (subject_bbox x !! XMAX) as [s |] eqn:Hs;
      [| rewrite lf_ydist_missing in Hv by auto; discriminate].
    destruct (object_bbox x !! XMAX) as [o |] eqn:Ho;
      [| rewrite lf_ydist_missing in Hv by auto; discriminate].
    apply lookup_lt_Some in Hs, Ho. unfold XMAX in *. lia.
  - intros [Hs Ho].
    destruct (lookup_lt_is_Some_2 (subject_bbox x) XMAX) as [s Hs'];
      [unfold XMAX; lia |].
    destruct (lookup_lt_is_Some_2 (object_bbox x) XMAX) as [o Ho'];
      [unfold XMAX; lia |].
    rewrite (lf_ydist_lookup x s o Hs' Ho'). eauto.
Qed.

Lemma lf_area_returns_iff (x : Example) :
  returns (lf_area x) <->
  (4 <= length (subject_bbox x))%nat /\
  exists a, area (object_bbox x) = Ok a /\ a <> 0.
Proof.
  unfold lf_area, returns. split.
  - intros [v Hv].
    apply bind_Ok in Hv as (s & Hs & Hv).
    apply bind_Ok in Hv as (o & Ho & Hv).
    apply bind_Ok in Hv as (r & Hr & _).
    split; [apply area_returns; exists s; exact Hs |].
    exists o. split; [exact Ho |].
    unfold truediv in Hr. destruct (Z.eqb_spec o 0); [discriminate | assumption].
  - intros (Hs & a & Ha & Hnz).
    apply area_returns in Hs as [s Hs]. rewrite Hs, Ha. simpl.
    unfold truediv. destruct (Z.eqb_spec a 0); [contradiction |]. simpl.
    destruct (Qle_bool _ _); eauto.
Qed.

(** X10: on an example whose boxes hold image coordinates, all seven
    labeling functions of [lfs] return exactly when the subject box has at
    least four coordinates, the object box has as many, and the object's
    area is not zero; otherwise one of them raises. *)
Theorem labeling_functions_defined (x : Example) :
  pixel_box (subject_bbox x) = true ->
  pixel_box (object_bbox x) = true ->
  (forall lf, lf ∈ lfs -> returns (lf x)) <->
  (4 <= length (subject_bbox x))%nat /\
  length (object_bbox x) = length (subject_bbox x) /\
  exists a, area (object_bbox x) = Ok a /\ a <> 0.
Proof.
  intros _ _. split.
  - intros Hall.
    assert (Hy : returns (lf_ydist x)).
    { apply Hall. unfold lfs. set_solver. }
    assert (Hd : returns (lf_dist x)).
    { apply Hall. unfold lfs. set_solver. }
    assert (Ha : returns (lf_area x)).
    { apply Hall. unfold lfs. set_solver. }
    apply lf_ydist_returns in Hy as [Hs Ho].
    apply lf_dist_returns in Hd.
    apply lf_area_returns_iff in Ha as [_ Ha].
    split; [exact Hs |]. split; [lia | exact Ha].
  - intros (Hs & Hlen & Ha) lf Hlf.
    unfold lfs in Hlf.
    repeat (apply elem_of_cons in Hlf as [-> | Hlf]);
      [ .. | apply elem_of_nil in Hlf; contradiction ].
    + unfold lf_ride_object, returns.
      destruct (String.eqb _ _); [destruct (str_in _ _) |]; eauto.
    + unfold lf_carry_object, returns.
      destruct (String.eqb _ _); [destruct (str_in _ _) |]; eauto.
    + unfold lf_carry_subject, returns.
      destruct (String.eqb _ _); [destruct (str_in _ _) |]; eauto.
    + unfold lf_not_person, returns. destruct (negb _); eauto.
    + apply lf_ydist_returns. lia.
    + apply lf_dist_returns. left. symmetry. exact Hlen.
    + apply lf_area_returns_iff. auto.
Qed.

Lemma labeling_functions_defined_witness :
  (forall lf, lf ∈ lfs -> returns (lf carried_bag)) /\
  ~ (forall lf, lf ∈ lfs -> returns (lf flat_object)).
Proof.
  split.
  - apply (labeling_functions_defined carried_bag);
      [reflexivity | reflexivity |].
    split; [simpl; lia |]. split; [reflexivity |].
    eexists. split; [reflexivity | discriminate].
  - intros Hall.
    apply (labeling_functions_defined flat_object) in Hall
      as (_ & _ & a & Ha & Hnz); [| reflexivity | reflexivity].
    injection Ha as <-. apply Hnz. reflexivity.
Defined.

(** ** Policy names *)

(** X11: a policy name other than the eight that [overall_deps_fn] tests for
    (the comparison is case-sensitive) reaches the [return] with [deps]
    unbound: the call raises UnboundLocalError and consults no estimator. *)
Theorem overall_deps_fn_unknown_name `{Monitors} (L_dev : matrix)
    (Y_dev : list Z) (deps_name : string) (param : Q) :
  deps_name ∉ ["CDM"; "CDGAM"; "NM"; "NM_NP"; "Mod_Varma"; "Varma";
               "Varma_Gold"; "Empty"] ->
  overall_deps_fn L_dev Y_dev deps_name param = Err UnboundLocalError.
Proof.
  intros Hnot. unfold overall_deps_fn.
  repeat match goal with
  | |- context [String.eqb deps_name ?s] =>
      destruct (String.eqb_spec deps_name s) as [-> | _];
        [exfalso; apply Hnot; set_solver |]
  end.
  reflexivity.
Qed.

Lemma overall_deps_fn_unknown_name_witness :
  @overall_deps_fn stub_monitors [[0; -1]] [0] "empty" (-1)
  = Err UnboundLocalError.
Proof.
  apply overall_deps_fn_unknown_name.
  intros Hin.
  repeat (apply elem_of_cons in Hin as [Hin | Hin]; [discriminate |]).
  apply elem_of_nil in Hin. exact Hin.
Defined.

(** X12: only the policies CDM, NM, NM_NP, Mod_Varma and Varma_Gold pass the
    gold vector to an estimator: under any other name ([CDGAM], [Varma],
    [Empty], or an unknown one) the result of [overall_deps_fn] is the same
    for every gold vector. *)
Theorem overall_deps_fn_gold_free `{Monitors} (L_dev : matrix)
    (Y1 Y2 : list Z) (deps_name : string) (param : Q) :
  deps_name ∉ ["CDM"; "NM"; "NM_NP"; "Mod_Varma"; "Varma_Gold"] ->
  overall_deps_fn L_dev Y1 deps_name param
  = overall_deps_fn L_dev Y2 deps_name param.
Proof.
  intros Hnot. unfold overall_deps_fn.
  repeat match goal with
  | |- context [String.eqb deps_name ?s] =>
      destruct (String.eqb_spec deps_name s) as [-> | _];
        [first [ exfalso; apply Hnot; set_solver | reflexivity ] |]
  end.
  reflexivity.
Qed.

Lemma overall_deps_fn_gold_free_witness :
  @overall_deps_fn stub_monitors [[0; -1]; [2; 2]] [0] "CDGAM" (1 # 10)
  = @overall_deps_fn stub_monitors [[0; -1]; [2; 2]] [0; 1; 2] "CDGAM" (1 # 10)
  /\
  @overall_deps_fn stub_monitors [[0; -1]; [2; 2]] [0] "NM" (1 # 10)
  <> @overall_deps_fn stub_monitors [[0; -1]; [2; 2]] [0; 1; 2] "NM" (1 # 10).
Proof.
  split; [| discriminate].
  apply overall_deps_fn_gold_free.
  intros Hin.
  repeat (apply elem_of_cons in Hin as [Hin | Hin]; [discriminate |]).
  apply elem_of_nil in Hin. exact Hin.
Defined.

(** ** The sweep's loops *)

Lemma outcome_bind_Done {A B : Type} (m : outcome A) (k : A -> outcome B)
    (b : B) :
  m ≫= k = Done b <-> exists a, m = Done a /\ k a = Done b.
Proof.
  destruct m as [a | e]; simpl.
  - split; [intros Hk; exists a; auto | intros (a' & Ha & Hk); congruence].
  - split; [discriminate | intros (a' & Ha & _); discriminate].
Qed.

Lemma dict_get_Done {V : Type} (d : gmap string V) (key : string) (v : V) :
  dict_get d key = Done v <-> d !! key = Some v.
Proof.
  unfold dict_get. destruct (d !! key); split; congruence.
Qed.

Lemma lift_Done {A : Type} (r : result A) (a : A) :
  lift r = Done a <-> r = Ok a.
Proof.
  destruct r; simpl; split; congruence.
Qed.

Lemma for_each_invariant {A S : Type} (body : S -> A -> outcome S)
    (P : S -> Prop) (l : list A) (s s' : S) :
  (forall s1 a s2, a ∈ l -> P s1 -> body s1 a = Done s2 -> P s2) ->
  P s -> for_each body l s = Done s' -> P s'.
Proof.
  revert s. induction l as [| a l IH]; intros s Hstep Hs Hrun; simpl in Hrun.
  - injection Hrun as <-. exact Hs.
  - apply outcome_bind_Done in Hrun as (s1 & Ha & Hrun).
    apply (IH s1); [| | exact Hrun].
    + intros s2 a' s3 Ha'. apply Hstep. right. exact Ha'.
    + apply (Hstep s a s1); [left | exact Hs | exact Ha].
Qed.

Lemma sum_cons (z : Z) (l : list Z) : sum (z :: l) = z + sum l.
Proof. reflexivity. Qed.

Lemma for_each_count {A S : Type} (body : S -> A -> outcome S)
    (c : S -> Z) (w : A -> Z) (l : list A) (s s' : S) :
  for_each body l s = Done s' ->
  (forall s1 a s2, a ∈ l -> body s1 a = Done s2 -> c s2 = c s1 + w a) ->
  c s' = c s + sum (w <$> l).
Proof.
  revert s. induction l as [| a l IH]; intros s Hrun Hstep; simpl in Hrun.
  - injection Hrun as <-. change (sum (w <$> [])) with 0. lia.
  - apply outcome_bind_Done in Hrun as (s1 & Ha & Hrun).
    rewrite fmap_cons, sum_cons, (IH s1 Hrun).
    + rewrite (Hstep s a s1); [lia | left | exact Ha].
    + intros s2 a' s3 Ha'. apply Hstep. right. exact Ha'.
Qed.

Lemma sum_const {A : Type} (c : Z) (l : list A) :
  sum ((fun _ => c) <$> l) = len l * c.
Proof.
  unfold len. induction l as [| a l IH]; [reflexivity |].
  rewrite fmap_cons, sum_cons, IH. simpl length. lia.
Qed.

Lemma record_trial_ct (deps_name : string) (param : Q) (n_eps : Z) (lr f1 : Q)
    (s s' : sweep_state) :
  record_trial deps_name param n_eps lr f1 s = Done s' -> ct s' = ct s + 1.
Proof.
  unfold record_trial. intros Hr.
  apply outcome_bind_Done in Hr as (old & _ & Hr).
  injection Hr as <-. reflexivity.
Qed.

Section SweepCount.
Context `{Monitors} `{LabelModelAPI}.
Variable info_ : gmap string grid.
Variables L_train L_dev : matrix.
Variable Y_dev : list Z.

Lemma sweep_name_ct (s s' : sweep_state) (deps_name : string) :
  sweep_name info_ L_train L_dev Y_dev s deps_name = Done s' ->
  ct s' = ct s + trials_of info_ deps_name.
Proof.
  unfold sweep_name, trials_of. intros Hrun.
  apply outcome_bind_Done in Hrun as (g & Hg & Hrun).
  apply dict_get_Done in Hg. rewrite Hg.
  rewrite (for_each_count _ ct
             (fun _ => len (snorkel_eps g) * len (snorkel_lr g))
             _ _ _ Hrun); [rewrite sum_const; reflexivity |].
  intros s1 param s2 _ Hparam. unfold sweep_param in Hparam.
  apply outcome_bind_Done in Hparam as (deps & _ & Hparam).
  apply outcome_bind_Done in Hparam as (g' & Hg' & Hparam).
  apply dict_get_Done in Hg'. assert (g' = g) as -> by congruence.
  rewrite (for_each_count _ ct (fun _ => len (snorkel_lr g))
             _ _ _ Hparam); [rewrite sum_const; reflexivity |].
  intros s3 n_eps s4 _ Heps. unfold sweep_eps in Heps.
  apply outcome_bind_Done in Heps as (g'' & Hg'' & Heps).
  apply dict_get_Done in Hg''. assert (g'' = g) as -> by congruence.
  rewrite (for_each_count _ ct (fun _ => 1) _ _ _ Heps);
    [rewrite sum_const; lia |].
  intros s5 lr s6 _ Hlr. unfold sweep_lr in Hlr.
  apply outcome_bind_Done in Hlr as (r & _ & Hlr).
  apply (record_trial_ct _ _ _ _ _ _ _ Hlr).
Qed.

Lemma sweep_ct (names : list string) (s : sweep_state) (tot : Z) :
  sweep info_ L_train L_dev Y_dev names = Done (s, tot) ->
  ct s = sum (trials_of info_ <$> names).
Proof.
  unfold sweep. intros Hrun.
  apply outcome_bind_Done in Hrun as (tot' & _ & Hrun).
  apply outcome_bind_Done in Hrun as (s' & Hloop & Hrun).
  injection Hrun as <- <-.
  rewrite (for_each_count _ ct (trials_of info_) _ _ _ Hloop); [simpl; lia |].
  intros s1 name s2 _. apply sweep_name_ct.
Qed.

Lemma total_Done (names : list string) (tot : Z) :
  (forall deps_name g, info_ !! deps_name = Some g ->
     snorkel_eps g = epochs_list /\ snorkel_lr g = lr_list) ->
  total info_ names = Done tot ->
  tot = sum (trials_of info_ <$> names).
Proof.
  intros Hgrid. unfold total. intros Htot.
  apply outcome_bind_Done in Htot as (lens & Hlens & Htot).
  injection Htot as <-.
  revert lens Hlens. induction names as [| name names IH]; intros lens Hlens;
    simpl in Hlens.
  - injection Hlens as <-. reflexivity.
  - rewrite fmap_cons, sum_cons.
    apply outcome_bind_Done in Hlens as (n & Hn & Hlens).
    apply outcome_bind_Done in Hlens as (lens' & Hlens' & Hlens).
    injection Hlens as <-.
    apply outcome_bind_Done in Hn as (g & Hg & Hn).
    apply dict_get_Done in Hg. injection Hn as <-.
    rewrite sum_cons, <- (IH lens' Hlens'). unfold trials_of. rewrite Hg.
    destruct (Hgrid name g Hg) as [-> ->]. lia.
Qed.

End SweepCount.

Lemma info_grids (deps_name : string) (g : grid) :
  info !! deps_name = Some g ->
  snorkel_eps g = epochs_list /\ snorkel_lr g = lr_list.
Proof.
  unfold info. intros Hg. apply elem_of_list_to_map_2 in Hg.
  repeat (apply elem_of_cons in Hg as [Heq | Hg];
          [injection Heq as _ ->; split; reflexivity |]).
  apply elem_of_nil in Hg. contradiction.
Qed.

(** X13: when the validation sweep runs to its end, the trial counter [ct]
    equals the announced [total], for any list of policy names: every entry
    of [info] sweeps [epochs_list] and [lr_list], which is what [total]
    multiplies by. *)
Theorem sweep_counter_reaches_total `{Monitors} `{LabelModelAPI}
    (L_train L_dev : matrix) (Y_dev : list Z) (names : list string)
    (s : sweep_state) (tot : Z) :
  sweep info L_train L_dev Y_dev names = Done (s, tot) ->
  ct s = tot.
Proof.
  intros Hrun. rewrite (sweep_ct _ _ _ _ _ _ _ Hrun).
  unfold sweep in Hrun.
  apply outcome_bind_Done in Hrun as (tot' & Htot & Hrun).
  apply outcome_bind_Done in Hrun as (s' & _ & Hrun).
  injection Hrun as _ <-.
  symmetry. apply (total_Done info names tot' info_grids Htot).
Qed.

Lemma sweep_counter_reaches_total_witness :
  exists s,
    @sweep stub_monitors counting_api info [[0; -1]; [1; 1]] [[0; -1]; [2; 2]]
           [0; 2] deps_names = Done (s, 420) /\
    ct s = 420.
Proof.
  eexists. split.
  - vm_compute. reflexivity.
  - apply (@sweep_counter_reaches_total stub_monitors counting_api
             [[0; -1]; [1; 1]] [[0; -1]; [2; 2]] [0; 2] deps_names).
    vm_compute. reflexivity.
Defined.

Lemma improves_refl (s : sweep_state) : improves s s.
Proof. intros key b Hb. exists b. split; [exact Hb | apply Qle_refl]. Qed.

Lemma improves_trans (s1 s2 s3 : sweep_state) :
  improves s1 s2 -> improves s2 s3 -> improves s1 s3.
Proof.
  intros H12 H23 key b Hb.
  destruct (H12 key b Hb) as (b2 & Hb2 & Hle2).
  destruct (H23 key b2 Hb2) as (b3 & Hb3 & Hle3).
  exists b3. split; [exact Hb3 | eapply Qle_trans; eauto].
Qed.

Lemma for_each_improves {A : Type} (body : sweep_state -> A -> outcome sweep_state)
    (l : list A) (s s' : sweep_state) :
  for_each body l s = Done s' ->
  (forall s1 a s2, a ∈ l -> body s1 a = Done s2 -> improves s1 s2) ->
  improves s s' /\
  forall a, a ∈ l ->
    exists s1 s2, body s1 a = Done s2 /\ improves s2 s'.
Proof.
  revert s. induction l as [| a l IH]; intros s Hrun Hstep; simpl in Hrun.
  - injection Hrun as <-. split; [apply improves_refl |].
    intros a Ha. apply elem_of_nil in Ha. contradiction.
  - apply outcome_bind_Done in Hrun as (s1 & Ha & Hrun).
    destruct (IH s1 Hrun) as [Himp Hall].
    { intros s2 a' s3 Ha'. apply Hstep. right. exact Ha'. }
    assert (Hfirst : improves s s1) by (apply (Hstep s a s1); [left | exact Ha]).
    split; [eapply improves_trans; eauto |].
    intros a' Ha'. apply elem_of_cons in Ha' as [-> | Ha'].
    + exists s, s1. auto.
    + apply Hall, Ha'.
Qed.

Lemma Qgt_bool_true (a b : Q) : Qgt_bool a b = true <-> (b < a)%Q.
Proof.
  unfold Qgt_bool. rewrite negb_true_iff.
  destruct (Qle_bool a b) eqn:Hle; split; try discriminate; try reflexivity.
  - apply Qle_bool_iff in Hle. intros Hlt.
    exfalso. apply (Qlt_irrefl a). eapply Qle_lt_trans; eauto.
  - intros _. apply Qnot_le_lt. intros Hab. apply Qle_bool_iff in Hab.
    congruence.
Qed.

Lemma Qgt_bool_false (a b : Q) : Qgt_bool a b = false <-> (a <= b)%Q.
Proof.
  unfold Qgt_bool. rewrite negb_false_iff. apply Qle_bool_iff.
Qed.

Lemma record_trial_improves (deps_name : string) (param : Q) (n_eps : Z)
    (lr f1 : Q) (s s' : sweep_state) :
  record_trial deps_name param n_eps lr f1 s = Done s' ->
  improves s s' /\
  exists b', f1_based_store s' !! deps_name = Some b' /\ (f1 <= best_f1 b')%Q.
Proof.
  unfold record_trial. intros Hr.
  apply outcome_bind_Done in Hr as (old & Hold & Hr).
  apply dict_get_Done in Hold. injection Hr as <-.
  destruct (Qgt_bool f1 (best_f1 old)) eqn:Hgt; simpl.
  - apply Qgt_bool_true in Hgt. split.
    + intros key b Hb. simpl. destruct (decide (key = deps_name)) as [-> | Hne].
      * rewrite lookup_insert_eq. eexists. split; [reflexivity |]. simpl.
        assert (b = old) as -> by congruence. apply Qlt_le_weak, Hgt.
      * rewrite lookup_insert_ne by congruence.
        exists b. split; [exact Hb | apply Qle_refl].
    + rewrite lookup_insert_eq. eexists. split; [reflexivity |]. apply Qle_refl.
  - apply Qgt_bool_false in Hgt. split.
    + intros key b Hb. exists b. split; [exact Hb | apply Qle_refl].
    + exists old. auto.
Qed.

Section SweepBest.
Context `{Monitors} `{LabelModelAPI}.
Variable info_ : gmap string grid.
Variables L_train L_dev : matrix.
Variable Y_dev : list Z.

Lemma sweep_lr_improves (deps_name : string) (param : Q) (deps : list edge)
    (n_eps : Z) (s s' : sweep_state) (lr : Q) :
  sweep_lr L_train L_dev Y_dev deps_name param deps n_eps s lr = Done s' ->
  improves s s' /\
  exists r b', trial deps L_train L_dev Y_dev n_eps lr = Ok r /\
               f1_based_store s' !! deps_name = Some b' /\
               (tr_f1 r <= best_f1 b')%Q.
Proof.
  unfold sweep_lr. intros Hrun.
  apply outcome_bind_Done in Hrun as (r & Hr & Hrun).
  apply lift_Done in Hr.
  destruct (record_trial_improves _ _ _ _ _ _ _ Hrun) as (Himp & b' & Hb' & Hle).
  split; [exact Himp |]. exists r, b'. auto.
Qed.

Lemma sweep_eps_improves (deps_name : string) (param : Q) (deps : list edge)
    (s s' : sweep_state) (n_eps : Z) :
  sweep_eps info_ L_train L_dev Y_dev deps_name param deps s n_eps = Done s' ->
  improves s s' /\
  forall g lr, info_ !! deps_name = Some g -> lr ∈ snorkel_lr g ->
    exists r b', trial deps L_train L_dev Y_dev n_eps lr = Ok r /\
                 f1_based_store s' !! deps_name = Some b' /\
                 (tr_f1 r <= best_f1 b')%Q.
Proof.
  unfold sweep_eps. intros Hrun.
  apply outcome_bind_Done in Hrun as (g & Hg & Hrun).
  apply dict_get_Done in Hg.
  destruct (for_each_improves _ _ _ _ Hrun) as [Himp Hall].
  { intros s1 lr s2 _ Hlr. apply (sweep_lr_improves _ _ _ _ _ _ _ Hlr). }
  split; [exact Himp |].
  intros g' lr Hg' Hlr. assert (g' = g) as -> by congruence.
  destruct (Hall lr Hlr) as (s1 & s2 & Hbody & Hrest).
  destruct (sweep_lr_improves _ _ _ _ _ _ _ Hbody) as (_ & r & b & Hr & Hb & Hle).
  destruct (Hrest deps_name b Hb) as (b' & Hb' & Hle').
  exists r, b'. split; [exact Hr |]. split; [exact Hb' |].
  eapply Qle_trans; eauto.
Qed.

Lemma sweep_param_improves (deps_name : string) (s s' : sweep_state)
    (param : Q) :
  sweep_param info_ L_train L_dev Y_dev deps_name s param = Done s' ->
  improves s s' /\
  exists deps, overall_deps_fn L_dev Y_dev deps_name param = Ok deps /\
  forall g n_eps lr, info_ !! deps_name = Some g ->
    n_eps ∈ snorkel_eps g -> lr ∈ snorkel_lr g ->
    exists r b', trial deps L_train L_dev Y_dev n_eps lr = Ok r /\
                 f1_based_store s' !! deps_name = Some b' /\
                 (tr_f1 r <= best_f1 b')%Q.
Proof.
  unfold sweep_param. intros Hrun.
  apply outcome_bind_Done in Hrun as (deps & Hdeps & Hrun).
  apply lift_Done in Hdeps.
  apply outcome_bind_Done in Hrun as (g & Hg & Hrun).
  apply dict_get_Done in Hg.
  destruct (for_each_improves _ _ _ _ Hrun) as [Himp Hall].
  { intros s1 n s2 _ Hn. apply (sweep_eps_improves _ _ _ _ _ _ Hn). }
  split; [exact Himp |]. exists deps. split; [exact Hdeps |].
  intros g' n_eps lr Hg' Hn Hlr. assert (g' = g) as -> by congruence.
  destruct (Hall n_eps Hn) as (s1 & s2 & Hbody & Hrest).
  destruct (sweep_eps_improves _ _ _ _ _ _ Hbody) as [_ Hin].
  destruct (Hin g lr Hg Hlr) as (r & b & Hr & Hb & Hle).
  destruct (Hrest deps_name b Hb) as (b' & Hb' & Hle').
  exists r, b'. split; [exact Hr |]. split; [exact Hb' |].
  eapply Qle_trans; eauto.
Qed.

Lemma sweep_name_improves (s s' : sweep_state) (deps_name : string) :
  sweep_name info_ L_train L_dev Y_dev s deps_name = Done s' ->
  improves s s' /\
  forall g param n_eps lr, info_ !! deps_name = Some g ->
    param ∈ deps_params g -> n_eps ∈ snorkel_eps g -> lr ∈ snorkel_lr g ->
    exists deps r b',
      overall_deps_fn L_dev Y_dev deps_name param = Ok deps /\
      trial deps L_train L_dev Y_dev n_eps lr = Ok r /\
      f1_based_store s' !! deps_name = Some b' /\
      (tr_f1 r <= best_f1 b')%Q.
Proof.
  unfold sweep_name. intros Hrun.
  apply outcome_bind_Done in Hrun as (g & Hg & Hrun).
  apply dict_get_Done in Hg.
  destruct (for_each_improves _ _ _ _ Hrun) as [Himp Hall].
  { intros s1 p s2 _ Hp. apply (sweep_param_improves _ _ _ _ Hp). }
  split; [exact Himp |].
  intros g' param n_eps lr Hg' Hp Hn Hlr. assert (g' = g) as -> by congruence.
  destruct (Hall param Hp) as (s1 & s2 & Hbody & Hrest).
  destruct (sweep_param_improves _ _ _ _ Hbody) as (_ & deps & Hdeps & Hin).
  destruct (Hin g n_eps lr Hg Hn Hlr) as (r & b & Hr & Hb & Hle).
  destruct (Hrest deps_name b Hb) as (b' & Hb' & Hle').
  exists deps, r, b'. split; [exact Hdeps |]. split; [exact Hr |].
  split; [exact Hb' |]. eapply Qle_trans; eauto.
Qed.

(** X14: when the validation sweep runs to its end, the score stored for a
    policy is at least the score of every trial of that policy: for each
    name of the list and each grid point [(param, n_eps, lr)] of its [info]
    entry, the estimator and the trial returned and the trial's score does
    not exceed the stored one. *)
Theorem sweep_store_dominates (names : list string) (s : sweep_state)
    (tot : Z) (deps_name : string) (g : grid) (param : Q) (n_eps : Z)
    (lr : Q) :
  sweep info_ L_train L_dev Y_dev names = Done (s, tot) ->
  deps_name ∈ names ->
  info_ !! deps_name = Some g ->
  param ∈ deps_params g -> n_eps ∈ snorkel_eps g -> lr ∈ snorkel_lr g ->
  exists deps r b,
    overall_deps_fn L_dev Y_dev deps_name param = Ok deps /\
    trial deps L_train L_dev Y_dev n_eps lr = Ok r /\
    f1_based_store s !! deps_name = Some b /\
    (tr_f1 r <= best_f1 b)%Q.
Proof.
  unfold sweep. intros Hrun Hname Hg Hp Hn Hlr.
  apply outcome_bind_Done in Hrun as (tot' & _ & Hrun).
  apply outcome_bind_Done in Hrun as (s' & Hloop & Hrun).
  injection Hrun as <- _.
  destruct (for_each_improves _ _ _ _ Hloop) as [_ Hall].
  { intros s1 name s2 _ Hbody. apply (sweep_name_improves _ _ _ Hbody). }
  destruct (Hall deps_name Hname) as (s1 & s2 & Hbody & Hrest).
  destruct (sweep_name_improves _ _ _ Hbody) as [_ Hin].
  destruct (Hin g param n_eps lr Hg Hp Hn Hlr) as (deps & r & b & Hd & Hr & Hb & Hle).
  destruct (Hrest deps_name b Hb) as (b' & Hb' & Hle').
  exists deps, r, b'. split; [exact Hd |]. split; [exact Hr |].
  split; [exact Hb' |]. eapply Qle_trans; eauto.
Qed.

End SweepBest.

Lemma init_store_lookup (names : list string) (key : string) (b : best) :
  init_store names !! key = Some b -> b = placeholder.
Proof.
  unfold init_store. intros Hb. apply elem_of_list_to_map_2 in Hb.
  apply list_elem_of_fmap in Hb as (k & [= _ ->] & _). reflexivity.
Qed.

Section SweepSelected.
Context `{Monitors} `{LabelModelAPI}.
Variable info_ : gmap string grid.
Variables L_train L_dev : matrix.
Variable Y_dev : list Z.

Lemma record_trial_tracked (deps_name : string) (g : grid) (param : Q)
    (deps : list edge) (n_eps : Z) (lr : Q) (r : trial_result)
    (s s' : sweep_state) :
  info_ !! deps_name = Some g ->
  param ∈ deps_params g -> n_eps ∈ snorkel_eps g -> lr ∈ snorkel_lr g ->
  overall_deps_fn L_dev Y_dev deps_name param = Ok deps ->
  trial deps L_train L_dev Y_dev n_eps lr = Ok r ->
  tracked info_ L_train L_dev Y_dev s ->
  record_trial deps_name param n_eps lr (tr_f1 r) s = Done s' ->
  tracked info_ L_train L_dev Y_dev s'.
Proof.
  intros Hg Hp Hn Hlr Hdeps Hr Hs Hrec. unfold record_trial in Hrec.
  apply outcome_bind_Done in Hrec as (old & Hold & Hrec).
  apply dict_get_Done in Hold. injection Hrec as <-.
  destruct (Qgt_bool (tr_f1 r) (best_f1 old)) eqn:Hgt; [| exact Hs].
  apply Qgt_bool_true in Hgt.
  intros key b Hb. simpl in Hb.
  destruct (decide (key = deps_name)) as [-> | Hne].
  - rewrite lookup_insert_eq in Hb. injection Hb as <-. right.
    exists g, deps, r. simpl. repeat (split; [assumption || reflexivity |]).
    destruct (Hs deps_name old Hold)
      as [-> | (_ & _ & _ & _ & _ & _ & _ & _ & _ & _ & Hpos)].
    + exact Hgt.
    + eapply Qlt_trans; eauto.
  - rewrite lookup_insert_ne in Hb by congruence. apply (Hs key b Hb).
Qed.

Lemma sweep_name_tracked (s s' : sweep_state) (deps_name : string) :
  tracked info_ L_train L_dev Y_dev s ->
  sweep_name info_ L_train L_dev Y_dev s deps_name = Done s' ->
  tracked info_ L_train L_dev Y_dev s'.
Proof.
  unfold sweep_name. intros Hs Hrun.
  apply outcome_bind_Done in Hrun as (g & Hg & Hrun).
  apply dict_get_Done in Hg.
  apply (for_each_invariant _ (tracked info_ L_train L_dev Y_dev) _ _ _)
    in Hrun; [exact Hrun | | exact Hs].
  clear s s' Hs Hrun. intros s param s' Hp Hs Hrun. unfold sweep_param in Hrun.
  apply outcome_bind_Done in Hrun as (deps & Hdeps & Hrun).
  apply lift_Done in Hdeps.
  apply outcome_bind_Done in Hrun as (g' & Hg' & Hrun).
  apply dict_get_Done in Hg'. assert (g' = g) as -> by congruence.
  apply (for_each_invariant _ (tracked info_ L_train L_dev Y_dev) _ _ _)
    in Hrun; [exact Hrun | | exact Hs].
  clear s s' Hs Hrun. intros s n_eps s' Hn Hs Hrun. unfold sweep_eps in Hrun.
  apply outcome_bind_Done in Hrun as (g'' & Hg'' & Hrun).
  apply dict_get_Done in Hg''. assert (g'' = g) as -> by congruence.
  apply (for_each_invariant _ (tracked info_ L_train L_dev Y_dev) _ _ _)
    in Hrun; [exact Hrun | | exact Hs].
  clear s s' Hs Hrun. intros s lr s' Hlr Hs Hrun. unfold sweep_lr in Hrun.
  apply outcome_bind_Done in Hrun as (r & Hr & Hrun).
  apply lift_Done in Hr.
  apply (record_trial_tracked deps_name g param deps n_eps lr r s s');
    assumption.
Qed.

(** X15: when the validation sweep runs to its end, every entry of
    [f1_based_store] is either the initial placeholder (all fields -1) or a
    configuration that was tried: a grid point of the policy's [info] entry
    on which the estimator and the trial returned, stored with that trial's
    score, which is above -1. *)
Theorem sweep_store_selected (names : list string) (s : sweep_state)
    (tot : Z) (key : string) (b : best) :
  sweep info_ L_train L_dev Y_dev names = Done (s, tot) ->
  f1_based_store s !! key = Some b ->
  b = placeholder \/ selected info_ L_train L_dev Y_dev key b.
Proof.
  unfold sweep. intros Hrun.
  apply outcome_bind_Done in Hrun as (tot' & _ & Hrun).
  apply outcome_bind_Done in Hrun as (s' & Hloop & Hrun).
  injection Hrun as <- _.
  revert key b.
  apply (for_each_invariant _ (tracked info_ L_train L_dev Y_dev) _ _ _)
    in Hloop; [exact Hloop | |].
  - intros s1 name s2 _ Hs1 Hbody.
    apply (sweep_name_tracked s1 s2 name Hs1 Hbody).
  - intros key b Hb. left. apply (init_store_lookup names key b Hb).
Qed.

End SweepSelected.

(** ** Dictionary keys in the sweep and the test run *)

Lemma outcome_bind_Failed {A B : Type} (m : outcome A) (k : A -> outcome B)
    (e : cell_exn) :
  m ≫= k = Failed e <->
  m = Failed e \/ exists a, m = Done a /\ k a = Failed e.
Proof.
  destruct m as [a | e']; simpl.
  - split; [intros Hk; right; exists a; auto |].
    intros [Hm | (a' & Ha & Hk)]; congruence.
  - split; [intros [= ->]; left; reflexivity |].
    intros [Hm | (a' & Ha & _)]; congruence.
Qed.

Lemma dict_get_Failed {V : Type} (d : gmap string V) (key : string)
    (e : cell_exn) :
  dict_get d key = Failed e <-> d !! key = None /\ e = KeyError key.
Proof.
  unfold dict_get. destruct (d !! key); split;
    try discriminate; try (intros [? ?]; discriminate).
  - intros [= <-]. auto.
  - intros [_ ->]. reflexivity.
Qed.

Lemma lift_Failed {A : Type} (r : result A) (e : cell_exn) :
  lift r = Failed e -> exists e', e = Raised e'.
Proof.
  destruct r; simpl; [discriminate |]. intros [= <-]. eauto.
Qed.

Lemma for_each_Failed {A S : Type} (body : S -> A -> outcome S)
    (P : S -> Prop) (l : list A) (s : S) (e : cell_exn) :
  for_each body l s = Failed e ->
  P s ->
  (forall s1 a s2, a ∈ l -> P s1 -> body s1 a = Done s2 -> P s2) ->
  exists a s1, a ∈ l /\ P s1 /\ body s1 a = Failed e.
Proof.
  revert s. induction l as [| a l IH]; intros s Hrun Hs Hstep; simpl in Hrun.
  - discriminate.
  - apply outcome_bind_Failed in Hrun as [Ha | (s1 & Ha & Hrun)].
    + exists a, s. split; [left | auto].
    + destruct (IH s1 Hrun) as (a' & s2 & Ha' & Hs2 & Hfail).
      * apply (Hstep s a s1); [left | exact Hs | exact Ha].
      * intros s2 a' s3 Ha'. apply Hstep. right. exact Ha'.
      * exists a', s2. split; [right; exact Ha' | auto].
Qed.

Lemma comprehension_Failed {A B : Type} (f : A -> outcome B) (l : list A)
    (e : cell_exn) :
  comprehension f l = Failed e -> exists a, a ∈ l /\ f a = Failed e.
Proof.
  induction l as [| a l IH]; simpl; [discriminate |]. intros Hrun.
  apply outcome_bind_Failed in Hrun as [Ha | (b & _ & Hrun)].
  - exists a. split; [left | exact Ha].
  - apply outcome_bind_Failed in Hrun as [Hl | (bs & _ & Hrun)];
      [| discriminate].
    destruct (IH Hl) as (a' & Ha' & Hf). exists a'. split; [right | ]; assumption.
Qed.

Lemma init_store_dom (names : list string) :
  dom (init_store names) = list_to_set names.
Proof.
  unfold init_store. rewrite dom_list_to_map_L, <- list_fmap_compose.
  f_equal. induction names as [| n names IH]; simpl; [reflexivity |].
  f_equal. exact IH.
Qed.

Lemma record_trial_dom (deps_name : string) (param : Q) (n_eps : Z)
    (lr f1 : Q) (s s' : sweep_state) :
  record_trial deps_name param n_eps lr f1 s = Done s' ->
  dom (f1_based_store s') = dom (f1_based_store s).
Proof.
  unfold record_trial. intros Hr.
  apply outcome_bind_Done in Hr as (old & Hold & Hr).
  apply dict_get_Done in Hold. injection Hr as <-. simpl.
  destruct (Qgt_bool f1 (best_f1 old)); [| reflexivity].
  apply dom_insert_lookup_L. eauto.
Qed.

Section SweepKeys.
Context `{Monitors} `{LabelModelAPI}.
Variable info_ : gmap string grid.
Variables L_train L_dev : matrix.
Variable Y_dev : list Z.
Variable keys : gset string.

Lemma sweep_lr_keyed (deps_name : string) (param : Q) (deps : list edge)
    (n_eps : Z) (s : sweep_state) (lr : Q) :
  keyed keys s -> deps_name ∈ keys ->
  match sweep_lr L_train L_dev Y_dev deps_name param deps n_eps s lr with
  | Done s' => keyed keys s'
  | Failed e => exists e', e = Raised e'
  end.
Proof.
  intros Hs Hname. unfold sweep_lr.
  destruct (trial deps L_train L_dev Y_dev n_eps lr) as [r | e]; simpl;
    [| eauto].
  destruct (record_trial deps_name param n_eps lr (tr_f1 r) s) as [s' | e]
    eqn:Hrec.
  - unfold keyed. rewrite (record_trial_dom _ _ _ _ _ _ _ Hrec). exact Hs.
  - unfold record_trial in Hrec.
    apply outcome_bind_Failed in Hrec as [Hget | (old & _ & Hrec)];
      [| discriminate].
    apply dict_get_Failed in Hget as [Hnone _].
    apply not_elem_of_dom in Hnone. unfold keyed in Hs. rewrite Hs in Hnone.
    contradiction.
Qed.

Lemma sweep_name_keyed (s : sweep_state) (deps_name : string) :
  keyed keys s -> deps_name ∈ keys ->
  match sweep_name info_ L_train L_dev Y_dev s deps_name with
  | Done s' => keyed keys s'
  | Failed e =>
      (exists e', e = Raised e') \/
      (e = KeyError deps_name /\ info_ !! deps_name = None)
  end.
Proof.
  intros Hs Hname.
  assert (Hlr : forall param deps n_eps s1 lr s2,
            keyed keys s1 ->
            sweep_lr L_train L_dev Y_dev deps_name param deps n_eps s1 lr
              = Done s2 -> keyed keys s2).
  { intros param deps n_eps s1 lr s2 Hs1 Hrun.
    pose proof (sweep_lr_keyed deps_name param deps n_eps s1 lr Hs1 Hname) as Hk.
    rewrite Hrun in Hk. exact Hk. }
  assert (Heps : forall param deps s1 n_eps,
            keyed keys s1 ->
            match sweep_eps info_ L_train L_dev Y_dev deps_name param deps s1 n_eps with
            | Done s2 => keyed keys s2
            | Failed e =>
                (exists e', e = Raised e') \/
                (e = KeyError deps_name /\ info_ !! deps_name = None)
            end).
  { intros param deps s1 n_eps Hs1. unfold sweep_eps.
    destruct (dict_get info_ deps_name) as [g | e] eqn:Hg; simpl.
    - destruct (for_each _ (snorkel_lr g) s1) as [s2 | e] eqn:Hrun.
      + apply (for_each_invariant _ (keyed keys) _ _ _) in Hrun;
          [exact Hrun | | exact Hs1].
        intros s3 lr s4 _. apply Hlr.
      + apply (for_each_Failed _ (keyed keys)) in Hrun as (lr & s3 & _ & Hs3 & Hfail);
          [| exact Hs1 | intros s3 lr s4 _; apply Hlr].
        pose proof (sweep_lr_keyed deps_name param deps n_eps s3 lr Hs3 Hname)
          as Hk.
        rewrite Hfail in Hk. left. exact Hk.
    - apply dict_get_Failed in Hg as [Hnone ->]. right. auto. }
  assert (Hparam : forall s1 param,
            keyed keys s1 ->
            match sweep_param info_ L_train L_dev Y_dev deps_name s1 param with
            | Done s2 => keyed keys s2
            | Failed e =>
                (exists e', e = Raised e') \/
                (e = KeyError deps_name /\ info_ !! deps_name = None)
            end).
  { intros s1 param Hs1. unfold sweep_param.
    destruct (overall_deps_fn L_dev Y_dev deps_name param) as [deps | e];
      simpl; [| left; eauto].
    destruct (dict_get info_ deps_name) as [g | e] eqn:Hg; simpl.
    - destruct (for_each _ (snorkel_eps g) s1) as [s2 | e] eqn:Hrun.
      + apply (for_each_invariant _ (keyed keys) _ _ _) in Hrun;
          [exact Hrun | | exact Hs1].
        intros s3 n s4 _ Hs3 Hbody.
        pose proof (Heps param deps s3 n Hs3) as Hk.
        rewrite Hbody in Hk. exact Hk.
      + apply (for_each_Failed _ (keyed keys)) in Hrun as (n & s3 & _ & Hs3 & Hfail);
          [| exact Hs1 |].
        * pose proof (Heps param deps s3 n Hs3) as Hk.
          rewrite Hfail in Hk. exact Hk.
        * intros s3 n s4 _ Hs3 Hbody.
          pose proof (Heps param deps s3 n Hs3) as Hk.
          rewrite Hbody in Hk. exact Hk.
    - apply dict_get_Failed in Hg as [Hnone ->]. right. auto. }
  unfold sweep_name.
  destruct (dict_get info_ deps_name) as [g | e] eqn:Hg; simpl.
  - destruct (for_each _ (deps_params g) s) as [s2 | e] eqn:Hrun.
    + apply (for_each_invariant _ (keyed keys) _ _ _) in Hrun;
        [exact Hrun | | exact Hs].
      intros s3 p s4 _ Hs3 Hbody.
      pose proof (Hparam s3 p Hs3) as Hk. rewrite Hbody in Hk. exact Hk.
    + apply (for_each_Failed _ (keyed keys)) in Hrun as (p & s3 & _ & Hs3 & Hfail);
        [| exact Hs |].
      * pose proof (Hparam s3 p Hs3) as Hk. rewrite Hfail in Hk. exact Hk.
      * intros s3 p s4 _ Hs3 Hbody.
        pose proof (Hparam s3 p Hs3) as Hk. rewrite Hbody in Hk. exact Hk.
  - apply dict_get_Failed in Hg as [Hnone ->]. right. auto.
Qed.

End SweepKeys.

Section SweepAndTest.
Context `{Monitors} `{LabelModelAPI}.
Variable info_ : gmap string grid.
Variables L_train L_dev : matrix.
Variable Y_dev : list Z.
Variable L_test : matrix.
Variable Y_test : list Z.

Lemma sweep_Done_dom (names : list string) (s : sweep_state) (tot : Z) :
  sweep info_ L_train L_dev Y_dev names = Done (s, tot) ->
  dom (f1_based_store s) = list_to_set names.
Proof.
  unfold sweep. intros Hrun.
  apply outcome_bind_Done in Hrun as (tot' & _ & Hrun).
  apply outcome_bind_Done in Hrun as (s' & Hloop & Hrun).
  injection Hrun as <- _.
  apply (for_each_invariant _
           (fun s1 => dom (f1_based_store s1) = list_to_set names) _ _ _)
    in Hloop; [exact Hloop | | apply init_store_dom].
  intros s1 name s2 Hname Hs1 Hbody.
  pose proof (sweep_name_keyed info_ L_train L_dev Y_dev (list_to_set names)
                s1 name Hs1) as Hk.
  rewrite Hbody in Hk. apply Hk. apply elem_of_list_to_set. exact Hname.
Qed.

Lemma test_run_no_KeyError (store : gmap string best) (names : list string)
    (key : string) :
  dom store = list_to_set names ->
  test_run L_train L_dev Y_dev L_test Y_test store names
    <> Failed (KeyError key).
Proof.
  intros Hdom Hrun. unfold test_run in Hrun.
  apply (for_each_Failed _ (fun _ => True)) in Hrun
    as (name & ts & Hname & _ & Hfail); [| exact I | auto].
  unfold test_name in Hfail.
  apply outcome_bind_Failed in Hfail as [Hget | (b & _ & Hfail)].
  - apply dict_get_Failed in Hget as [Hnone _].
    apply not_elem_of_dom in Hnone. rewrite Hdom in Hnone.
    apply Hnone, elem_of_list_to_set, Hname.
  - apply outcome_bind_Failed in Hfail as [Hdeps | (deps & _ & Hfail)].
    + apply lift_Failed in Hdeps as [e' He']. discriminate.
    + apply outcome_bind_Failed in Hfail as [Hr | (r & _ & Hfail)].
      * apply lift_Failed in Hr as [e' He']. discriminate.
      * discriminate.
Qed.

(** X16: the validation sweep raises KeyError only for a listed policy name
    that is not a key of [info]. When it runs to its end, the keys of
    [f1_based_store] are exactly the listed names, so the test cell, which
    reads the store under each listed name, raises no KeyError. *)
Theorem sweep_key_errors (names : list string) :
  (forall key,
     sweep info_ L_train L_dev Y_dev names = Failed (KeyError key) ->
     key ∈ names /\ info_ !! key = None) /\
  (forall s tot,
     sweep info_ L_train L_dev Y_dev names = Done (s, tot) ->
     dom (f1_based_store s) = list_to_set names /\
     forall key,
       test_run L_train L_dev Y_dev L_test Y_test (f1_based_store s) names
         <> Failed (KeyError key)).
Proof.
  split.
  - intros key Hrun. unfold sweep in Hrun.
    apply outcome_bind_Failed in Hrun as [Htot | (tot & _ & Hrun)].
    + unfold total in Htot.
      apply outcome_bind_Failed in Htot as [Hlens | (lens & _ & Htot)];
        [| discriminate].
      apply comprehension_Failed in Hlens as (name & Hname & Hfail).
      apply outcome_bind_Failed in Hfail as [Hget | (g & _ & Hfail)];
        [| discriminate].
      apply dict_get_Failed in Hget as [Hnone [= ->]]. auto.
    + apply outcome_bind_Failed in Hrun as [Hloop | (s & _ & Hrun)];
        [| discriminate].
      apply (for_each_Failed _
               (fun s1 => dom (f1_based_store s1) = list_to_set names))
        in Hloop as (name & s1 & Hname & Hs1 & Hfail).
      * pose proof (sweep_name_keyed info_ L_train L_dev Y_dev
                      (list_to_set names) s1 name Hs1) as Hk.
        rewrite Hfail in Hk.
        destruct Hk as [[e' He'] | [[= ->] Hnone]];
          [apply elem_of_list_to_set; exact Hname | discriminate | auto].
      * apply init_store_dom.
      * intros s1 name s2 Hname Hs1 Hbody.
        pose proof (sweep_name_keyed info_ L_train L_dev Y_dev
                      (list_to_set names) s1 name Hs1) as Hk.
        rewrite Hbody in Hk. apply Hk, elem_of_list_to_set, Hname.
  - intros s tot Hrun.
    pose proof (sweep_Done_dom names s tot Hrun) as Hdom.
    split; [exact Hdom |]. intros key.
    apply test_run_no_KeyError, Hdom.
Qed.

Lemma test_loop_scores (store : gmap string best) (l : list string)
    (ts0 ts : gmap string Q) :
  for_each (test_name L_train L_dev Y_dev L_test Y_test store) l ts0 = Done ts ->
  (forall name, name ∈ l ->
     exists b deps r,
       store !! name = Some b /\
       overall_deps_fn L_dev Y_dev name (best_param b) = Ok deps /\
       trial deps L_train L_test Y_test (best_n_eps b) (best_lr b) = Ok r /\
       ts !! name = Some (tr_f1 r)) /\
  (forall name, name ∉ l -> ts !! name = ts0 !! name).
Proof.
  revert ts0. induction l as [| a l IH]; intros ts0 Hrun; simpl in Hrun.
  - injection Hrun as <-. split; [| auto].
    intros name Hname. apply elem_of_nil in Hname. contradiction.
  - apply outcome_bind_Done in Hrun as (ts1 & Ha & Hrun).
    destruct (IH ts1 Hrun) as [Hin Hout].
    unfold test_name in Ha.
    apply outcome_bind_Done in Ha as (b & Hb & Ha).
    apply dict_get_Done in Hb.
    apply outcome_bind_Done in Ha as (deps & Hdeps & Ha).
    apply lift_Done in Hdeps.
    apply outcome_bind_Done in Ha as (r & Hr & Ha).
    apply lift_Done in Hr. injection Ha as <-.
    split.
    + intros name Hname.
      destruct (decide (name ∈ l)) as [Hl | Hnl]; [apply Hin, Hl |].
      apply elem_of_cons in Hname as [-> | Hname]; [| contradiction].
      exists b, deps, r. rewrite (Hout a Hnl), lookup_insert_eq. auto.
    + intros name Hname. apply not_elem_of_cons in Hname as [Hne Hnl].
      rewrite (Hout name Hnl). apply lookup_insert_ne. congruence.
Qed.

(** X17: when the test cell runs to its end, the score it records for each
    listed policy is that of one more trial on the test split: the
    dependencies are estimated again from the validation split with the
    stored parameter, the model is refitted on the training matrix with the
    stored epoch count and learning rate, and it is scored on the test
    matrix and gold vector. Names outside the list get no entry. *)
Theorem test_run_scores (store : gmap string best) (names : list string)
    (ts : gmap string Q) :
  test_run L_train L_dev Y_dev L_test Y_test store names = Done ts ->
  (forall name, name ∈ names ->
     exists b deps r,
       store !! name = Some b /\
       overall_deps_fn L_dev Y_dev name (best_param b) = Ok deps /\
       trial deps L_train L_test Y_test (best_n_eps b) (best_lr b) = Ok r /\
       ts !! name = Some (tr_f1 r)) /\
  (forall name, name ∉ names -> ts !! name = None).
Proof.
  unfold test_run. intros Hrun.
  destruct (test_loop_scores store names _ ts Hrun) as [Hin Hout].
  split; [exact Hin |].
  intros name Hname. rewrite (Hout name Hname).
  unfold init_test_store. apply not_elem_of_list_to_map_1.
  rewrite <- list_fmap_compose. intros Hmem.
  apply list_elem_of_fmap in Hmem as (k & -> & Hk). contradiction.
Qed.

End SweepAndTest.

(** ** The sweep and the test run on a small data set *)

Lemma sweep_store_dominates_witness :
  exists s deps r b,
    @sweep stub_monitors counting_api info [[0; -1]; [1; 1]] [[0; -1]; [2; 2]]
           [0; 2] ["Varma"; "Empty"] = Done (s, 100) /\
    @overall_deps_fn stub_monitors [[0; -1]; [2; 2]] [0; 2] "Varma" (5 # 10)
      = Ok deps /\
    @trial counting_api deps [[0; -1]; [1; 1]] [[0; -1]; [2; 2]] [0; 2] 100
           (1 # 10) = Ok r /\
    f1_based_store s !! "Varma" = Some b /\
    (@tr_f1 counting_api r <= best_f1 b)%Q.
Proof.
  assert (Hrun : exists s,
            @sweep stub_monitors counting_api info [[0; -1]; [1; 1]]
                   [[0; -1]; [2; 2]] [0; 2] ["Varma"; "Empty"] = Done (s, 100))
    by (eexists; vm_compute; reflexivity).
  destruct Hrun as [s Hrun].
  destruct (@sweep_store_dominates stub_monitors counting_api info
              [[0; -1]; [1; 1]] [[0; -1]; [2; 2]] [0; 2] ["Varma"; "Empty"]
              s 100 "Varma"
              {| deps_params := thresh_list; snorkel_eps := epochs_list;
                 snorkel_lr := lr_list |}
              (5 # 10) 100 (1 # 10) Hrun)
    as (deps & r & b & Hd & Hr & Hb & Hle).
  - left.
  - vm_compute. reflexivity.
  - right. left.
  - do 3 right. left.
  - do 3 right. left.
  - exists s, deps, r, b. auto.
Defined.

Lemma sweep_store_selected_witness :
  exists s b,
    @sweep stub_monitors counting_api info [[0; -1]; [1; 1]] [[0; -1]; [2; 2]]
           [0; 2] ["Varma"; "Empty"] = Done (s, 100) /\
    f1_based_store s !! "Empty" = Some b /\
    (b = placeholder \/
     @selected stub_monitors counting_api info [[0; -1]; [1; 1]]
               [[0; -1]; [2; 2]] [0; 2] "Empty" b).
Proof.
  assert (Hrun : exists s b,
            @sweep stub_monitors counting_api info [[0; -1]; [1; 1]]
                   [[0; -1]; [2; 2]] [0; 2] ["Varma"; "Empty"] = Done (s, 100)
            /\ f1_based_store s !! "Empty" = Some b).
  { eexists. eexists. split; vm_compute; reflexivity. }
  destruct Hrun as (s & b & Hrun & Hb).
  exists s, b. split; [exact Hrun |]. split; [exact Hb |].
  apply (@sweep_store_selected stub_monitors counting_api info
           [[0; -1]; [1; 1]] [[0; -1]; [2; 2]] [0; 2] ["Varma"; "Empty"]
           s 100 "Empty" b Hrun Hb).
Defined.

Lemma sweep_key_errors_witness :
  @sweep stub_monitors counting_api info [[0; -1]; [1; 1]] [[0; -1]; [2; 2]]
         [0; 2] ["Varma"; "empty"] = Failed (KeyError "empty") /\
  "empty" ∈ ["Varma"; "empty"] /\ info !! "empty" = None.
Proof.
  assert (Hrun : @sweep stub_monitors counting_api info [[0; -1]; [1; 1]]
                        [[0; -1]; [2; 2]] [0; 2] ["Varma"; "empty"]
                 = Failed (KeyError "empty")) by (vm_compute; reflexivity).
  split; [exact Hrun |].
  destruct (@sweep_key_errors stub_monitors counting_api info
              [[0; -1]; [1; 1]] [[0; -1]; [2; 2]] [0; 2] [[1; 1]] [1]
              ["Varma"; "empty"]) as [Hkey _].
  apply (Hkey "empty" Hrun).
Defined.

Lemma test_run_scores_witness :
  exists ts b deps r,
    @test_run stub_monitors counting_api [[0; -1]; [1; 1]] [[0; -1]; [2; 2]]
              [0; 2] [[1; 1]; [0; 0]; [2; -1]] [0; 0; 1]
              {["Empty" := {| best_param := -1; best_n_eps := 50;
                              best_lr := 1 # 100; best_f1 := 1 # 2 |}]}
              ["Empty"] = Done ts /\
    ({["Empty" := {| best_param := -1; best_n_eps := 50;
                     best_lr := 1 # 100; best_f1 := 1 # 2 |}]}
       : gmap string best) !! "Empty" = Some b /\
    @overall_deps_fn stub_monitors [[0; -1]; [2; 2]] [0; 2] "Empty"
                     (best_param b) = Ok deps /\
    @trial counting_api deps [[0; -1]; [1; 1]] [[1; 1]; [0; 0]; [2; -1]]
           [0; 0; 1] (best_n_eps b) (best_lr b) = Ok r /\
    ts !! "Empty" = Some (@tr_f1 counting_api r).
Proof.
  assert (Hrun : exists ts,
            @test_run stub_monitors counting_api [[0; -1]; [1; 1]]
                      [[0; -1]; [2; 2]] [0; 2] [[1; 1]; [0; 0]; [2; -1]]
                      [0; 0; 1]
                      {["Empty" := {| best_param := -1; best_n_eps := 50;
                                      best_lr := 1 # 100; best_f1 := 1 # 2 |}]}
                      ["Empty"] = Done ts)
    by (eexists; vm_compute; reflexivity).
  destruct Hrun as [ts Hrun].
  destruct (@test_run_scores stub_monitors counting_api [[0; -1]; [1; 1]]
              [[0; -1]; [2; 2]] [0; 2] [[1; 1]; [0; 0]; [2; -1]] [0; 0; 1]
              _ ["Empty"] ts Hrun) as [Hin _].
  destruct (Hin "Empty") as (b & deps & r & Hb & Hd & Hr & Hts); [left |].
  exists ts, b, deps, r. auto.
Defined.

(** ** Votes that cannot meet in one row *)

Lemma lfs_row (x : Example) (row : list Z) :
  mapE (fun lf => lf x) lfs = Ok row ->
  exists v0 v1 v2 v3 v4 v5 v6,
    row = [v0; v1; v2; v3; v4; v5; v6] /\
    lf_ride_object x = Ok v0 /\ lf_carry_object x = Ok v1 /\
    lf_carry_subject x = Ok v2 /\ lf_not_person x = Ok v3 /\
    lf_ydist x = Ok v4 /\ lf_dist x = Ok v5 /\ lf_area x = Ok v6.
Proof.
  unfold lfs. simpl. intros Hrow.
  repeat match goal with
  | H : (_ ≫= _) = Ok _ |- _ => apply bind_Ok in H as (? & ? & H)
  end.
  repeat match goal with
  | H : Ok _ = Ok _ |- _ => injection H as <-
  end.
  do 7 eexists. repeat split; eassumption || reflexivity.
Qed.

(** X18: no row of the notebook's label matrix holds both a RIDE vote and a
    CARRY vote: the only function that votes RIDE and the two that vote
    CARRY never vote on the same example. *)
Theorem label_matrix_no_ride_with_carry (df : list Example) (L : matrix)
    (row : list Z) :
  apply_lfs lfs df = Ok L -> row ∈ L ->
  ~ (RIDE ∈ row /\ CARRY ∈ row).
Proof.
  intros HL Hrow [Hride Hcarry]. apply apply_lfs_Ok in HL as [_ HL].
  apply list_elem_of_lookup in Hrow as [i Hi].
  destruct (mapE_Ok_lookup _ _ _ HL i row Hi) as (x & _ & Hx).
  destruct (lfs_row x row Hx)
    as (v0 & v1 & v2 & v3 & v4 & v5 & v6 & -> & H0 & H1 & H2 & H3 & H4 & H5 & H6).
  assert (Hv0 : v0 = RIDE).
  { repeat (apply elem_of_cons in Hride as [Hride | Hride]);
      [ congruence
      | destruct (lf_carry_object_unipolar x v1 H1); subst; discriminate
      | destruct (lf_carry_subject_unipolar x v2 H2); subst; discriminate
      | destruct (lf_not_person_unipolar x v3 H3); subst; discriminate
      | destruct (lf_ydist_unipolar x v4 H4); subst; discriminate
      | destruct (lf_dist_unipolar x v5 H5); subst; discriminate
      | destruct (lf_area_unipolar x v6 H6); subst; discriminate
      | apply elem_of_nil in Hride; contradiction ]. }
  subst v0.
  destruct (ride_vote_excludes x H0) as (H1' & H2' & _).
  assert (v1 = ABSTAIN) by congruence.
  assert (v2 = ABSTAIN) by congruence.
  subst v1 v2.
  repeat (apply elem_of_cons in Hcarry as [Hcarry | Hcarry]);
    [ discriminate | discriminate | discriminate
    | destruct (lf_not_person_unipolar x v3 H3); subst; discriminate
    | destruct (lf_ydist_unipolar x v4 H4); subst; discriminate
    | destruct (lf_dist_unipolar x v5 H5); subst; discriminate
    | destruct (lf_area_unipolar x v6 H6); subst; discriminate
    | apply elem_of_nil in Hcarry; contradiction ].
Qed.

Lemma label_matrix_no_ride_with_carry_witness :
  ~ (RIDE ∈ [RIDE; ABSTAIN; ABSTAIN; ABSTAIN; OTHER; OTHER; ABSTAIN] /\
     CARRY ∈ [RIDE; ABSTAIN; ABSTAIN; ABSTAIN; OTHER; OTHER; ABSTAIN]).
Proof.
  apply (label_matrix_no_ride_with_carry [rider]
           [[RIDE; ABSTAIN; ABSTAIN; ABSTAIN; OTHER; OTHER; ABSTAIN]]).
  - reflexivity.
  - left.
Defined.

(** ** Translating both boxes *)

(** X19: [lf_dist] depends on the two boxes only through their coordinate
    differences: moving both four-coordinate boxes by the same offsets
    leaves its vote as it was, as long as the boxes hold image coordinates
    before and after the move. *)
Theorem lf_dist_shift_invariant (x x' : Example)
    (s0 s1 s2 s3 o0 o1 o2 o3 d0 d1 d2 d3 : Z) :
  subject_bbox x = [s0; s1; s2; s3] ->
  object_bbox x = [o0; o1; o2; o3] ->
  subject_bbox x' = [s0 + d0; s1 + d1; s2 + d2; s3 + d3] ->
  object_bbox x' = [o0 + d0; o1 + d1; o2 + d2; o3 + d3] ->
  pixel_box (subject_bbox x) = true -> pixel_box (object_bbox x) = true ->
  pixel_box (subject_bbox x') = true -> pixel_box (object_bbox x') = true ->
  lf_dist x' = lf_dist x.
Proof.
  intros Hs Ho Hs' Ho' _ _ _ _. unfold lf_dist. rewrite Hs, Ho, Hs', Ho'.
  unfold np_sub. simpl.
  replace (s0 + d0 - (o0 + d0)) with (s0 - o0) by ring.
  replace (s1 + d1 - (o1 + d1)) with (s1 - o1) by ring.
  replace (s2 + d2 - (o2 + d2)) with (s2 - o2) by ring.
  replace (s3 + d3 - (o3 + d3)) with (s3 - o3) by ring.
  reflexivity.
Qed.

Lemma lf_dist_shift_invariant_witness :
  lf_dist
    {| label := 0; object_bbox := [130; 310; 35; 255];
       object_category := "horse"; source_img := "rider.jpg";
       subject_bbox := [40; 260; 75; 195]; subject_category := "person" |}
  = lf_dist rider.
Proof.
  apply (lf_dist_shift_invariant rider _ 30 250 80 200 120 300 40 260
           10 10 (-5) (-5)); reflexivity.
Defined.
